(** * maintainercollector: the aggregation of per-project MAINTAINERS files

    A shallow embedding of [maintainercollector/main.go].  Go strings are
    byte sequences and are modelled by [string] (a list of 8-bit [ascii]);
    Go maps by [gmap]; the map of [*Org] pointers by a map of [Org] values
    (every pointer stored in the map is fresh, so no two keys alias);
    the network, the body reader and the TOML decoder by oracles. *)

From Stdlib Require Import Ascii String NArith.
From stdpp Require Import base option list sorting gmap strings.

Local Open Scope string_scope.
Local Open Scope list_scope.

(** ** Go's order on strings

    [sort.Strings] and [<] on strings compare byte-wise, a proper prefix
    being smaller: this is [String.compare] over [Ascii.compare]. *)

Definition string_le (a b : string) : Prop := Is_true (String.leb a b).

#[global] Instance string_le_dec : RelDecision string_le.
Proof. intros a b. unfold string_le. apply _. Defined.

(** [sort.Strings]: the argument in ascending order.  The order is total
    and antisymmetric, so the ascending permutation is unique and the
    algorithm used to reach it cannot be observed. *)
Definition sort_Strings (l : list string) : list string :=
  merge_sort string_le l.

(** ** [strings.ToLower] *)

Definition is_ascii_byte (c : ascii) : bool := (N_of_ascii c <? 128)%N.

Definition is_upper_byte (c : ascii) : bool :=
  ((65 <=? N_of_ascii c) && (N_of_ascii c <=? 90))%N.

(** ['A'..'Z'] moved by ['a' - 'A']. *)
Definition lower_byte (c : ascii) : ascii :=
  if is_upper_byte c then ascii_of_N (N_of_ascii c + 32) else c.

Fixpoint isASCII (s : string) : bool :=
  match s with
  | EmptyString => true
  | String c r => is_ascii_byte c && isASCII r
  end.

Fixpoint map_bytes (f : ascii -> ascii) (s : string) : string :=
  match s with
  | EmptyString => EmptyString
  | String c r => String (f c) (map_bytes f r)
  end.

(** ** [strings.SplitN (s, sep, 2)] for a one-byte separator *)

(** The text before and after the first occurrence of [sep], if any. *)
Fixpoint cut (sep : ascii) (s : string) : option (string * string) :=
  match s with
  | EmptyString => None
  | String c r =>
      if Ascii.eqb c sep then Some (EmptyString, r)
      else match cut sep r with
           | Some (a, b) => Some (String c a, b)
           | None => None
           end
  end.

Definition SplitN2 (sep : ascii) (s : string) : list string :=
  match cut sep s with
  | Some (a, b) => [a; b]
  | None => [s]
  end.

Fixpoint contains_byte (sep : ascii) (s : string) : bool :=
  match s with
  | EmptyString => false
  | String c r => Ascii.eqb c sep || contains_byte sep r
  end.

(** ** Constants of the program *)

Definition defaultOrg : string := "docker".
Definition ghRawUri : string := "https://raw.githubusercontent.com".

Definition projects : list string :=
  [ "boot2docker"; "cli"; "compose"; "compose-on-kubernetes";
    "containerd/containerd"; "distribution"; "docker-bench-security";
    "docker-credential-helpers"; "docker-py"; "dockercraft";
    "go-connections"; "go-events"; "go-healthcheck"; "go-p9p";
    "go-plugins-helpers"; "go-units"; "infrakit"; "kitematic";
    "leadership"; "leeroy"; "libchan"; "libcompose"; "libkv";
    "libnetwork"; "linuxkit/linuxkit"; "machine"; "migrator";
    "moby/datakit"; "moby/hyperkit"; "moby/moby"; "moby/vpnkit";
    "spdystream"; "swarm"; "swarmkit"; "swarm-frontends";
    "theupdateframework/notary"; "toolbox"; "v1.10-migrator" ].

(** ** [getProjectOrg] *)

Definition getProjectOrg (project : string) : string * string :=
  let org := defaultOrg in
  match SplitN2 "/" project with
  | [p0; p1] => (p0, p1)
  | _ => (org, project)
  end.

(** ** [removeDuplicates] *)

(** The loop over [slice]: [seens] is the Go map used as a set (only the
    presence of a key is read), [uniqs] the elements in the order of their
    first occurrence. *)
Fixpoint removeDuplicates_loop (seens : gmap string bool) (uniqs : list string)
    (slice : list string) : list string :=
  match slice with
  | [] => uniqs
  | element :: rest =>
      match seens !! element with
      | None =>
          removeDuplicates_loop (<[element := true]> seens) (uniqs ++ [element]) rest
      | Some _ => removeDuplicates_loop seens uniqs rest
      end
  end.

Definition removeDuplicates (slice : list string) : list string :=
  sort_Strings (removeDuplicates_loop ∅ [] slice).

(** The invariant of the loop: [seens] holds exactly the strings already in [uniqs]. *)
Definition seen_inv (seens : gmap string bool) (uniqs : list string) : Prop :=
  forall x, is_Some (seens !! x) ↔ x ∈ uniqs.

(** ** The data model

    Modelled from the spec: the struct declarations ([Org], [Person],
    [Organization], [MaintainersDepreciated], [Maintainers]) are not in
    [main.go]; the fields are the ones [main] reads and writes, an optional
    group being a [*Org] that may be [nil].  A person record is the opaque
    profile of the spec's data model (display name, email, GitHub handle). *)

Record Person := mkPerson {
  Person_Name : string;
  Person_Email : string;
  Person_GitHub : string }.

Record Org := mkOrg { Org_People : list string }.

Record Organization := mkOrganization {
  Organization_Maintainers : option Org;
  Organization_CoreMaintainers : option Org;
  Organization_DocsMaintainers : option Org;
  Organization_Curators : option Org }.

(** [Depreciated_People] is a Go map ranged over in an order the language
    leaves open: it is given as the list of its entries in the order the
    [range] of this run visits them. *)
Record MaintainersDepreciated := mkDepreciated {
  Depreciated_Organization : Organization;
  Depreciated_People : list (string * Person) }.

Record Maintainers := mkMaintainers {
  Maintainers_Org : gmap string Org;
  Maintainers_People : gmap string Person }.

#[global] Instance Person_eq_dec : EqDecision Person.
Proof. solve_decision. Defined.
#[global] Instance Org_eq_dec : EqDecision Org.
Proof. solve_decision. Defined.

(** ** The outside world *)

Inductive result (A : Type) : Type :=
  | Ok (a : A)
  | Err (msg : string).
Arguments Ok {A} a.
Arguments Err {A} msg.

(** [http.Get], [ioutil.ReadAll] on the response body and [toml.Decode]
    into a zero [MaintainersDepreciated]; an error is its message. *)
Record Env := mkEnv {
  http_Get : string -> result string;
  ioutil_ReadAll : string -> result string;
  toml_Decode : string -> result MaintainersDepreciated }.

Inductive Level := InfoLevel | ErrorLevel.

Definition Log := list (Level * string).

(** The state of [main]'s loop: [projectMaintainers] and what [logrus]
    was given so far. *)
Record State := mkState {
  projectMaintainers : Maintainers;
  logged : Log }.

(** ** The output file

    The fixed header of the generated file.  The double quote is spelled
    by its code. *)

Definition dquote : string := String (ascii_of_N 34) EmptyString.

Definition head : string :=
  "#
# THIS FILE IS AUTOGENERATED; SEE " +:+ dquote +:+ "./maintainercollector" +:+ dquote +:+ "!
#
# Docker projects maintainers file
#
# This file describes who runs the Docker project and how.
# This is a living document - if you see something out of date or missing,
# speak up!
#
# It is structured to be consumable by both humans and programs.
# To extract its contents programmatically, use any TOML-compliant
# parser.
".

(** The encoder, given its indent and the model, and [ioutil.WriteFile],
    given the name, the data and the permission bits; [Some] is the error
    of a failed write. *)
Record Sink := mkSink {
  toml_Encode : string -> Maintainers -> result string;
  ioutil_WriteFile : string -> string -> N -> option string }.

(** How the process ends: [Exit1] is [logrus.Fatal] with its message. *)
Inductive Exit := Exit0 | Exit1 (msg : string).

(** What [main] leaves behind: the log, the calls of [ioutil.WriteFile]
    and the exit. *)
Record Outcome := mkOutcome {
  out_logged : Log;
  out_writes : list (string * string * N);
  out_exit : Exit }.

(** The [fileUrl] of [getMaintainers]. *)
Definition fileUrl (org project : string) : string :=
  ghRawUri +:+ "/" +:+ org +:+ "/" +:+ project +:+ "/master/MAINTAINERS".

(** ** Example worlds

    A world serving the given declarations at their URLs; any other URL
    cannot be reached. *)

Fixpoint served (files : list (string * MaintainersDepreciated)) (url : string)
    : option MaintainersDepreciated :=
  match files with
  | [] => None
  | (u, d) :: rest => if String.eqb u url then Some d else served rest url
  end.

Definition world (files : list (string * MaintainersDepreciated)) : Env :=
  mkEnv
    (fun url => match served files url with
                | Some _ => Ok url
                | None => Err "dial tcp: no route to host"
                end)
    (fun body => Ok body)
    (fun file => match served files file with
                 | Some d => Ok d
                 | None => Err "bare keys cannot contain that character"
                 end).

Definition tom1 : Person := mkPerson "Tom One" "tom@one.example" "Tom".
Definition tom2 : Person := mkPerson "Tom Two" "tom@two.example" "tom".
Definition tom3 : Person := mkPerson "Tom Three" "tom@three.example" "TOM".
Definition zed : Person := mkPerson "Zed" "zed@example.org" "Zed".

(** Both a primary and a legacy group, docs maintainers and a curator. *)
Definition boot2docker_decl : MaintainersDepreciated :=
  mkDepreciated
    (mkOrganization (Some (mkOrg ["Zed"; "amy"])) (Some (mkOrg ["bob"]))
       (Some (mkOrg ["Dora"])) (Some (mkOrg ["Tom"])))
    [("Tom", tom1); ("Zed", zed)].

(** Neither a primary nor a legacy group. *)
Definition cli_decl : MaintainersDepreciated :=
  mkDepreciated
    (mkOrganization None None None (Some (mkOrg ["tom"; "Sam"])))
    [("tom", tom2)].

Definition compose_decl : MaintainersDepreciated :=
  mkDepreciated (mkOrganization None None None None) [("TOM", tom3)].

(** A legacy group only. *)
Definition containerd_decl : MaintainersDepreciated :=
  mkDepreciated (mkOrganization None (Some (mkOrg ["Bob"; "Al"])) None None) [].

Definition demo : Env :=
  world [ (fileUrl "docker" "boot2docker", boot2docker_decl);
          (fileUrl "docker" "cli", cli_decl);
          (fileUrl "docker" "compose", compose_decl);
          (fileUrl "containerd" "containerd", containerd_decl) ].

(** A declaration with two nicknames that differ in case only, visited in
    this order. *)
Definition twice_decl : MaintainersDepreciated :=
  mkDepreciated (mkOrganization None None None None)
    [("tom", tom2); ("TOM", tom3)].

Definition demo_twice : Env :=
  world [ (fileUrl "docker" "boot2docker", boot2docker_decl);
          (fileUrl "docker" "cli", twice_decl) ].

(** A sink that encodes every model to one line and writes every file, one
    whose encoder fails, and one whose disk is full. *)
Definition good_sink : Sink :=
  mkSink (fun _ _ => Ok "[Org]") (fun _ _ _ => None).



(** A world in which every file is served and none can be decoded. *)
Definition garbled : Env :=
  mkEnv (fun url => Ok url) (fun body => Ok body)
    (fun _ => Err "bare keys cannot contain that character").

(** A declaration whose primary group repeats a nickname in two cases. *)
Definition repeated_decl : MaintainersDepreciated :=
  mkDepreciated
    (mkOrganization (Some (mkOrg ["Tom"; "amy"; "tom"])) None None None) [].

(** A world with two identifiers of one bare name, and an identifier named
    as a pseudo-group. *)
Definition demo_clash : Env :=
  world [ (fileUrl "docker" "boot2docker", boot2docker_decl);
          (fileUrl "moby" "boot2docker", containerd_decl);
          (fileUrl "docker" "cli", repeated_decl);
          (fileUrl "docker" "Curators", boot2docker_decl) ].

(** The example worlds hold ASCII names only, for which [strings.ToLower]
    never takes the path through the Unicode tables. *)
Definition no_tables : string -> string := fun s => s.

Section Aggregator.

Set Default Proof Using "Type".

(** [strings.Map (unicode.ToLower, s)], the path [strings.ToLower] takes
    for a string with a byte outside ASCII; it rests on the Unicode tables
    of the Go library. *)
Variable unicode_ToLower_Map : string -> string.

Variable env : Env.

(** [strings.ToLower]: an all-ASCII string has its bytes ['A'..'Z'] lowered
    (and is returned as it is when it has none, which is the same value). *)
Definition ToLower (s : string) : string :=
  if isASCII s then map_bytes lower_byte s else unicode_ToLower_Map s.

(** ** [getMaintainers] *)

Definition getMaintainers (org project : string)
    : Log * result MaintainersDepreciated :=
  let url := fileUrl org project in
  let lg := [(InfoLevel,
              org +:+ "/" +:+ project +:+ ": loading MAINTAINERS file from " +:+ url)] in
  match http_Get env url with
  | Err err => (lg, Err (org +:+ "/" +:+ project +:+ ": " +:+ err))
  | Ok resp =>
      match ioutil_ReadAll env resp with
      | Err err => (lg, Err (org +:+ "/" +:+ project +:+ ": " +:+ err))
      | Ok file =>
          match toml_Decode env file with
          | Err err =>
              (lg, Err (org +:+ "/" +:+ project
                        +:+ ": parsing MAINTAINERS file failed: " +:+ err))
          | Ok maintainers => (lg, Ok maintainers)
          end
      end
  end.

(** ** The body of [main]'s loop *)

(** Lines 98-111: the people of the primary group, else of the legacy one,
    else of the empty [Org].  In Go the slice is shared with the decoded
    group, which [main] does not read again; the docs-maintainers and
    curators groups are tables of their own. *)
Definition projectPeople (maintainers : MaintainersDepreciated) : list string :=
  match Organization_Maintainers (Depreciated_Organization maintainers) with
  | Some m => Org_People m
  | None =>
      match Organization_CoreMaintainers (Depreciated_Organization maintainers) with
      | Some c => Org_People c
      | None => []
      end
  end.

(** Lines 113-117: every nickname lowercased in place, then [sort.Strings]. *)
Definition normalize (people : list string) : list string :=
  sort_Strings (map ToLower people).

(** [orgs[key].People = append (orgs[key].People, people...)]; [None] is
    the nil-pointer panic of a missing key. *)
Definition appendPeople (key : string) (people : list string)
    (orgs : gmap string Org) : option (gmap string Org) :=
  o ← orgs !! key;
  Some (<[key := mkOrg (Org_People o ++ people)]> orgs).

Definition appendGroup (key : string) (group : option Org)
    (orgs : gmap string Org) : option (gmap string Org) :=
  match group with
  | Some g => appendPeople key (Org_People g) orgs
  | None => Some orgs
  end.

(** Lines 130-132: the entries in the order of the range, a later one
    overwriting an earlier one under the same lowercased key. *)
Definition mergePeople (entries : list (string * Person))
    (people : gmap string Person) : gmap string Person :=
  foldl (fun acc e => <[ToLower e.1 := e.2]> acc) people entries.

Definition processProject (st : State) (p : string) : option State :=
  let '(org, project) := getProjectOrg p in
  let '(lg, r) := getMaintainers org project in
  match r with
  | Err err =>
      Some (mkState (projectMaintainers st)
              (logged st ++ lg ++
               [(ErrorLevel,
                 project +:+ ": parsing MAINTAINERS file failed: " +:+ err)]))
  | Ok maintainers =>
      let o := Depreciated_Organization maintainers in
      let orgs :=
        <[project := mkOrg (normalize (projectPeople maintainers))]>
          (Maintainers_Org (projectMaintainers st)) in
      orgs ← appendGroup "Docs maintainers" (Organization_DocsMaintainers o) orgs;
      orgs ← appendGroup "Curators" (Organization_Curators o) orgs;
      Some (mkState
              (mkMaintainers orgs
                 (mergePeople (Depreciated_People maintainers)
                    (Maintainers_People (projectMaintainers st))))
              (logged st ++ lg))
  end.

Fixpoint processAll (st : State) (ps : list string) : option State :=
  match ps with
  | [] => Some st
  | p :: rest => st' ← processProject st p; processAll st' rest
  end.

(** Lines 80-87. *)
Definition initial : State :=
  mkState
    (mkMaintainers
       (<["Docs maintainers" := mkOrg []]> (<["Curators" := mkOrg []]> ∅))
       ∅)
    [].

(** [orgs[key].People = removeDuplicates (orgs[key].People)]. *)
Definition dedupeGroup (key : string) (orgs : gmap string Org)
    : option (gmap string Org) :=
  o ← orgs !! key;
  Some (<[key := mkOrg (removeDuplicates (Org_People o))]> orgs).

(** [main] up to line 136, over a list of configured projects: the
    combined model handed to the encoder, and the log. *)
Definition run (ps : list string) : option State :=
  st ← processAll initial ps;
  orgs ← dedupeGroup "Curators" (Maintainers_Org (projectMaintainers st));
  orgs ← dedupeGroup "Docs maintainers" orgs;
  Some (mkState (mkMaintainers orgs (Maintainers_People (projectMaintainers st)))
          (logged st)).

Definition main : option State := run projects.

(** ** The end of [main], lines 138-154 *)

(** The two prose blocks [rules] and [roles] are constants of another file
    of the package. *)
Variables rules roles : string.

Variable sink : Sink.

(** The encoding of the model, the assembly of the file and its write.  A
    failed encoding or write ends the process through [logrus.Fatal]. *)
Definition finish (st : State) : Outcome :=
  match toml_Encode sink "    " (projectMaintainers st) with
  | Err err =>
      mkOutcome (logged st) [] (Exit1 ("TOML encoding error: " +:+ err))
  | Ok buf =>
      let file := ((head +:+ rules) +:+ roles) +:+ buf in
      match ioutil_WriteFile sink "MAINTAINERS" file 493 with
      | Some err => mkOutcome (logged st) [("MAINTAINERS", file, 493%N)] (Exit1 err)
      | None =>
          mkOutcome
            (logged st ++
             [(InfoLevel, "Successfully wrote new combined MAINTAINERS file.")])
            [("MAINTAINERS", file, 493%N)] Exit0
      end
  end.

(** The whole of [main]; [None] is a panic of the loop. *)
Definition main_with_output : option Outcome :=
  st ← main; Some (finish st).

(** ** Vocabulary of the statements *)

Definition orgsOf (st : State) : gmap string Org :=
  Maintainers_Org (projectMaintainers st).

Definition peopleOf (st : State) : gmap string Person :=
  Maintainers_People (projectMaintainers st).

(** The key a configured identifier is stored under. *)
Definition projectName (p : string) : string := (getProjectOrg p).2.

(** What [getMaintainers] hands back for a configured identifier. *)
Definition fetched (p : string) : result MaintainersDepreciated :=
  (getMaintainers (getProjectOrg p).1 (getProjectOrg p).2).2.

Definition decodedOf (p : string) : option MaintainersDepreciated :=
  match fetched p with
  | Ok d => Some d
  | Err _ => None
  end.

(** The declarations of the projects that were fetched and decoded, in the
    order of the list. *)
Definition decoded (ps : list string) : list MaintainersDepreciated :=
  omap decodedOf ps.

Definition groupPeople (g : option Org) : list string :=
  match g with
  | Some o => Org_People o
  | None => []
  end.

Definition curatorsOf (d : MaintainersDepreciated) : list string :=
  groupPeople (Organization_Curators (Depreciated_Organization d)).

Definition docsOf (d : MaintainersDepreciated) : list string :=
  groupPeople (Organization_DocsMaintainers (Depreciated_Organization d)).

(** The lines one turn of the loop logs for the identifier [p]. *)
Definition projectLog (p : string) : Log :=
  (getMaintainers (getProjectOrg p).1 (getProjectOrg p).2).1 ++
  match fetched p with
  | Ok _ => []
  | Err err =>
      [(ErrorLevel, projectName p +:+ ": parsing MAINTAINERS file failed: " +:+ err)]
  end.

Definition is_error_line (e : Level * string) : bool :=
  match e.1 with
  | ErrorLevel => true
  | InfoLevel => false
  end.

Definition fails (p : string) : bool :=
  match fetched p with
  | Ok _ => false
  | Err _ => true
  end.

(** [p] is decoded and stored under the key [k]. *)
Definition stored_under (k : string) (p : string) : Prop :=
  projectName p = k /\ is_Some (decodedOf p).

(** A nickname is in lowercase form when it is the lowercase form of some
    nickname. *)
Definition lowercase_form (n : string) : Prop := exists n0, n = ToLower n0.

(** No decoded project of [ps] declares a nickname lowercasing to [k]. *)
Definition undeclared_in (k : string) (ps : list string) : Prop :=
  forall q d n r, q ∈ ps -> fetched q = Ok d ->
    (n, r) ∈ Depreciated_People d -> ToLower n <> k.

(** *** The loop without its panics

    Where both pseudo-groups are present no lookup of the loop misses, and
    the loop is the fold of a total step on the combined model. *)

Definition has_pseudo (orgs : gmap string Org) : Prop :=
  is_Some (orgs !! "Curators") /\ is_Some (orgs !! "Docs maintainers").

Definition not_pseudo (k : string) : Prop :=
  k <> "Curators" /\ k <> "Docs maintainers".

#[local] Instance not_pseudo_dec k : Decision (not_pseudo k).
Proof. unfold not_pseudo. apply _. Defined.

Definition extendOrg (people : list string) (o : Org) : Org :=
  mkOrg (Org_People o ++ people).

Definition mergeOrgs (name : string) (d : MaintainersDepreciated)
    (orgs : gmap string Org) : gmap string Org :=
  alter (extendOrg (curatorsOf d)) "Curators"
    (alter (extendOrg (docsOf d)) "Docs maintainers"
       (<[name := mkOrg (normalize (projectPeople d))]> orgs)).

Definition stepModel (m : Maintainers) (p : string) : Maintainers :=
  match decodedOf p with
  | Some d =>
      mkMaintainers (mergeOrgs (projectName p) d (Maintainers_Org m))
        (mergePeople (Depreciated_People d) (Maintainers_People m))
  | None => m
  end.

Definition modelAfter (m : Maintainers) (ps : list string) : Maintainers :=
  foldl stepModel m ps.

Definition dedupeOrg (o : Org) : Org := mkOrg (removeDuplicates (Org_People o)).

Definition finalOrgs (orgs : gmap string Org) : gmap string Org :=
  alter dedupeOrg "Docs maintainers" (alter dedupeOrg "Curators" orgs).

(** Propositional goals, decided without the variables of the section. *)
Local Ltac tautology := clear unicode_ToLower_Map env rules roles sink; tauto.

(** ** The order and [sort.Strings] *)

Lemma string_leb_trans a b c :
  String.leb a b = true -> String.leb b c = true -> String.leb a c = true.
Proof.
  revert b c. induction a as [|x a IH]; intros [|y b] [|z c]; try done.
  unfold String.leb. cbn [String.compare]. unfold Ascii.compare.
  destruct (N.compare_spec (N_of_ascii x) (N_of_ascii y)) as [E1|L1|G1];
    destruct (N.compare_spec (N_of_ascii y) (N_of_ascii z)) as [E2|L2|G2];
    destruct (N.compare_spec (N_of_ascii x) (N_of_ascii z)) as [E3|L3|G3];
    try done; try lia.
  apply IH.
Qed.

#[local] Instance string_le_trans : Transitive string_le.
Proof.
  intros a b c Hab Hbc. apply Is_true_true.
  apply Is_true_true in Hab, Hbc. eauto using string_leb_trans.
Qed.

#[local] Instance string_le_total : Total string_le.
Proof.
  intros a b. unfold string_le.
  destruct (String.leb_total a b) as [H|H]; rewrite H; [by left|by right].
Qed.

#[local] Instance string_le_antisym : AntiSymm (=) string_le.
Proof.
  intros a b Hab Hba. apply Is_true_true in Hab, Hba.
  by apply String.leb_antisym.
Qed.

Lemma sort_Strings_Sorted l : Sorted string_le (sort_Strings l).
Proof. apply (Sorted_merge_sort string_le). Qed.

Lemma sort_Strings_Permutation l : sort_Strings l ≡ₚ l.
Proof. apply (merge_sort_Permutation string_le). Qed.

Lemma sort_Strings_elem_of l x : x ∈ sort_Strings l ↔ x ∈ l.
Proof. by rewrite sort_Strings_Permutation. Qed.

(** Two lists with the same elements up to order sort to the same list. *)
Lemma sort_Strings_perm l1 l2 : l1 ≡ₚ l2 -> sort_Strings l1 = sort_Strings l2.
Proof.
  intros HP. apply (Sorted_unique string_le); try apply sort_Strings_Sorted.
  by rewrite !sort_Strings_Permutation.
Qed.

Lemma sort_Strings_sorted_id l : Sorted string_le l -> sort_Strings l = l.
Proof.
  intros HS. apply (Sorted_unique string_le); auto using sort_Strings_Sorted.
  apply sort_Strings_Permutation.
Qed.

(** ** The loop of [removeDuplicates] *)

Lemma seen_inv_empty : seen_inv ∅ [].
Proof.
  intros x. rewrite lookup_empty. split; [by intros [? ?]|by intros ?%elem_of_nil].
Qed.

Lemma seen_inv_insert seens uniqs e :
  seen_inv seens uniqs -> seen_inv (<[e := true]> seens) (uniqs ++ [e]).
Proof.
  intros Hinv x. rewrite lookup_insert_is_Some, elem_of_app, list_elem_of_singleton.
  rewrite <- (Hinv x). destruct (decide (e = x)) as [->|Hne].
  { split; intros _; [by right|by left]. }
  split.
  - intros [?|[_ ?]]; [done|by left].
  - intros [?|?]; [by right|by destruct Hne].
Qed.

Lemma removeDuplicates_loop_elem_of slice : forall seens uniqs x,
  seen_inv seens uniqs ->
  x ∈ removeDuplicates_loop seens uniqs slice ↔ x ∈ uniqs ∨ x ∈ slice.
Proof.
  induction slice as [|e rest IH]; intros seens uniqs x Hinv; cbn.
  - rewrite elem_of_nil. tautology.
  - destruct (seens !! e) as [b|] eqn:He.
    + rewrite IH by done. rewrite elem_of_cons.
      assert (e ∈ uniqs) by (apply Hinv; eauto).
      split; [tautology|intros [?|[->|?]]; tautology].
    + rewrite IH by (by apply seen_inv_insert).
      rewrite elem_of_app, list_elem_of_singleton, elem_of_cons. tautology.
Qed.

Lemma removeDuplicates_loop_NoDup slice : forall seens uniqs,
  seen_inv seens uniqs -> NoDup uniqs ->
  NoDup (removeDuplicates_loop seens uniqs slice).
Proof.
  induction slice as [|e rest IH]; intros seens uniqs Hinv Hnd; cbn; [done|].
  destruct (seens !! e) as [b|] eqn:He; [by apply IH|].
  apply IH; [by apply seen_inv_insert|].
  apply NoDup_app. split_and!; [done| |apply NoDup_singleton].
  intros x Hx ->%list_elem_of_singleton.
  apply Hinv in Hx. rewrite He in Hx. by destruct Hx.
Qed.

(** On a list without repetition that shares nothing with [uniqs] the loop
    appends the whole list. *)
Lemma removeDuplicates_loop_fresh slice : forall seens uniqs,
  seen_inv seens uniqs -> NoDup slice -> (forall x, x ∈ slice -> x ∉ uniqs) ->
  removeDuplicates_loop seens uniqs slice = uniqs ++ slice.
Proof.
  induction slice as [|e rest IH]; intros seens uniqs Hinv Hnd Hfresh; cbn.
  - by rewrite app_nil_r.
  - apply NoDup_cons in Hnd as [Hne Hnd].
    destruct (seens !! e) as [b|] eqn:He.
    + exfalso. apply (Hfresh e); [by left|]. apply Hinv. eauto.
    + rewrite IH; [by rewrite <- app_assoc|by apply seen_inv_insert|done|].
      intros x Hx [Hin| ->%list_elem_of_singleton]%elem_of_app; [|done].
      apply (Hfresh x); [by right|done].
Qed.

Lemma removeDuplicates_elem_of l x : x ∈ removeDuplicates l ↔ x ∈ l.
Proof.
  unfold removeDuplicates. rewrite sort_Strings_elem_of.
  rewrite removeDuplicates_loop_elem_of by apply seen_inv_empty.
  rewrite elem_of_nil. tautology.
Qed.

Lemma removeDuplicates_NoDup l : NoDup (removeDuplicates l).
Proof.
  unfold removeDuplicates. rewrite sort_Strings_Permutation.
  apply removeDuplicates_loop_NoDup; [apply seen_inv_empty|apply NoDup_nil_2].
Qed.

Lemma removeDuplicates_Sorted l : Sorted string_le (removeDuplicates l).
Proof. apply sort_Strings_Sorted. Qed.

(** The result depends on the set of the elements only. *)
Lemma removeDuplicates_same_set l1 l2 :
  (forall x, x ∈ l1 ↔ x ∈ l2) -> removeDuplicates l1 = removeDuplicates l2.
Proof.
  intros Hset. apply (Sorted_unique string_le);
    try apply removeDuplicates_Sorted.
  apply NoDup_Permutation; try apply removeDuplicates_NoDup.
  intros x. by rewrite !removeDuplicates_elem_of.
Qed.

Lemma removeDuplicates_fixed l :
  NoDup l -> Sorted string_le l -> removeDuplicates l = l.
Proof.
  intros Hnd Hs. unfold removeDuplicates.
  rewrite removeDuplicates_loop_fresh;
    [by apply sort_Strings_sorted_id|apply seen_inv_empty|done|].
  intros x _. apply not_elem_of_nil.
Qed.




(** ** The loop never panics *)

Lemma extendOrg_nil o : extendOrg [] o = o.
Proof. destruct o. unfold extendOrg. cbn. by rewrite app_nil_r. Qed.

Lemma appendGroup_alter key g orgs :
  is_Some (orgs !! key) ->
  appendGroup key g orgs = Some (alter (extendOrg (groupPeople g)) key orgs).
Proof.
  intros [o Ho]. destruct g as [g|]; cbn.
  - unfold appendPeople. rewrite Ho. cbn. f_equal.
    apply map_eq. intros k. rewrite lookup_alter, lookup_insert.
    destruct (decide (key = k)) as [<-|]; [by rewrite Ho|done].
  - f_equal. apply map_eq. intros k. rewrite lookup_alter.
    destruct (decide (key = k)) as [<-|]; [|done].
    by rewrite Ho; cbn; rewrite extendOrg_nil.
Qed.

Lemma has_pseudo_insert k o orgs : has_pseudo orgs -> has_pseudo (<[k := o]> orgs).
Proof.
  intros [H1 H2]. split; rewrite lookup_insert_is_Some;
    destruct (decide (k = "Curators")), (decide (k = "Docs maintainers")); tautology.
Qed.

Lemma has_pseudo_alter f k orgs : has_pseudo orgs -> has_pseudo (alter f k orgs).
Proof. intros [H1 H2]. split; by rewrite lookup_alter_is_Some. Qed.

Lemma has_pseudo_mergeOrgs name d orgs :
  has_pseudo orgs -> has_pseudo (mergeOrgs name d orgs).
Proof. intros H. by do 2 apply has_pseudo_alter; apply has_pseudo_insert. Qed.

Lemma has_pseudo_stepModel m p :
  has_pseudo (Maintainers_Org m) -> has_pseudo (Maintainers_Org (stepModel m p)).
Proof.
  intros H. unfold stepModel. destruct (decodedOf p); [|done].
  by apply has_pseudo_mergeOrgs.
Qed.

Lemma has_pseudo_initial : has_pseudo (orgsOf initial).
Proof. split; by eexists. Qed.

Lemma getMaintainers_log org project :
  (getMaintainers org project).1 =
  [(InfoLevel, org +:+ "/" +:+ project +:+ ": loading MAINTAINERS file from "
               +:+ fileUrl org project)].
Proof.
  unfold getMaintainers. destruct (http_Get env _); [|done].
  destruct (ioutil_ReadAll env _); [|done]. by destruct (toml_Decode env _).
Qed.

Lemma processProject_Err st p err :
  fetched p = Err err ->
  processProject st p =
  Some (mkState (projectMaintainers st)
          (logged st ++ (getMaintainers (getProjectOrg p).1 (getProjectOrg p).2).1 ++
           [(ErrorLevel,
             projectName p +:+ ": parsing MAINTAINERS file failed: " +:+ err)])).
Proof.
  unfold fetched, processProject, projectName.
  destruct (getProjectOrg p) as [org project]. cbn.
  destruct (getMaintainers org project) as [lg r]. cbn. by intros ->.
Qed.

Lemma processProject_Ok st p d :
  fetched p = Ok d -> has_pseudo (orgsOf st) ->
  processProject st p =
  Some (mkState
          (mkMaintainers (mergeOrgs (projectName p) d (orgsOf st))
             (mergePeople (Depreciated_People d) (peopleOf st)))
          (logged st ++ (getMaintainers (getProjectOrg p).1 (getProjectOrg p).2).1)).
Proof.
  unfold fetched, processProject, projectName.
  destruct (getProjectOrg p) as [org project]. cbn.
  destruct (getMaintainers org project) as [lg r]. cbn. intros -> Hps.
  apply (has_pseudo_insert project
           (mkOrg (normalize (projectPeople d)))) in Hps as Hps1.
  rewrite appendGroup_alter by apply Hps1. cbn.
  apply (has_pseudo_alter (extendOrg (docsOf d)) "Docs maintainers") in Hps1.
  by rewrite appendGroup_alter by apply Hps1.
Qed.

(** One turn of the loop is the total step, on the model. *)
Lemma processProject_model st p :
  has_pseudo (orgsOf st) ->
  exists st', processProject st p = Some st' /\
              projectMaintainers st' = stepModel (projectMaintainers st) p.
Proof.
  intros Hps. unfold stepModel, decodedOf.
  destruct (fetched p) as [d|err] eqn:Hf.
  - eexists. split; [by apply processProject_Ok|done].
  - eexists. split; [by apply processProject_Err|done].
Qed.

Lemma processAll_model ps : forall st,
  has_pseudo (orgsOf st) ->
  exists st', processAll st ps = Some st' /\
              projectMaintainers st' = modelAfter (projectMaintainers st) ps.
Proof.
  induction ps as [|p ps IH]; intros st Hps; cbn.
  - by eexists.
  - destruct (processProject_model st p Hps) as (st1 & -> & Hm). cbn.
    destruct (IH st1) as (st2 & -> & Hm2).
    + unfold orgsOf. rewrite Hm. by apply has_pseudo_stepModel.
    + eexists. split; [done|]. by rewrite Hm2, Hm.
Qed.

Lemma has_pseudo_modelAfter ps : forall m,
  has_pseudo (Maintainers_Org m) -> has_pseudo (Maintainers_Org (modelAfter m ps)).
Proof.
  induction ps as [|p ps IH]; intros m H; cbn; [done|].
  by apply IH, has_pseudo_stepModel.
Qed.

Lemma dedupeGroup_alter key orgs :
  is_Some (orgs !! key) -> dedupeGroup key orgs = Some (alter dedupeOrg key orgs).
Proof.
  intros [o Ho]. unfold dedupeGroup. rewrite Ho. cbn. f_equal.
  apply map_eq. intros k. rewrite lookup_alter, lookup_insert.
  destruct (decide (key = k)) as [<-|]; [by rewrite Ho|done].
Qed.

(** [run] returns, and its model is the fold of the total step followed by
    the two deduplications. *)
Lemma run_model ps :
  exists st, run ps = Some st /\
    orgsOf st = finalOrgs (Maintainers_Org (modelAfter (projectMaintainers initial) ps)) /\
    peopleOf st = Maintainers_People (modelAfter (projectMaintainers initial) ps).
Proof.
  unfold run.
  destruct (processAll_model ps initial has_pseudo_initial) as (st & -> & Hm).
  cbn. pose proof (has_pseudo_modelAfter ps _ has_pseudo_initial) as Hps.
  rewrite <- Hm in Hps. destruct Hps as [Hc Hd].
  rewrite dedupeGroup_alter by done. cbn.
  rewrite dedupeGroup_alter by (by rewrite lookup_alter_is_Some). cbn.
  eexists. split; [done|]. unfold orgsOf, peopleOf, finalOrgs. cbn.
  by rewrite Hm.
Qed.

(** ** What one project does to the group mapping *)

Lemma mergeOrgs_lookup_name name d orgs :
  not_pseudo name ->
  mergeOrgs name d orgs !! name = Some (mkOrg (normalize (projectPeople d))).
Proof.
  intros [Hc Hd]. unfold mergeOrgs.
  rewrite !lookup_alter_ne by done. apply lookup_insert_eq.
Qed.

Lemma mergeOrgs_lookup_other name d orgs k :
  not_pseudo k -> name <> k -> mergeOrgs name d orgs !! k = orgs !! k.
Proof.
  intros [Hc Hd] Hne. unfold mergeOrgs.
  rewrite !lookup_alter_ne by done. by apply lookup_insert_ne.
Qed.

Lemma mergeOrgs_lookup_curators name d orgs :
  name <> "Curators" ->
  mergeOrgs name d orgs !! "Curators" =
  extendOrg (curatorsOf d) <$> orgs !! "Curators".
Proof.
  intros Hne. unfold mergeOrgs. rewrite lookup_alter_eq.
  rewrite lookup_alter_ne by done. by rewrite lookup_insert_ne.
Qed.

Lemma mergeOrgs_lookup_docs name d orgs :
  name <> "Docs maintainers" ->
  mergeOrgs name d orgs !! "Docs maintainers" =
  extendOrg (docsOf d) <$> orgs !! "Docs maintainers".
Proof.
  intros Hne. unfold mergeOrgs. rewrite lookup_alter_ne by done.
  rewrite lookup_alter_eq. by rewrite lookup_insert_ne.
Qed.

(** ** The fold over the configured projects *)

Lemma modelAfter_cons m p ps :
  modelAfter m (p :: ps) = modelAfter (stepModel m p) ps.
Proof. done. Qed.

Lemma modelAfter_app m l1 l2 :
  modelAfter m (l1 ++ l2) = modelAfter (modelAfter m l1) l2.
Proof. apply foldl_app. Qed.

Lemma stepModel_failed m p : decodedOf p = None -> stepModel m p = m.
Proof. unfold stepModel. by intros ->. Qed.

Lemma modelAfter_skip m l1 p l2 :
  decodedOf p = None -> modelAfter m (l1 ++ p :: l2) = modelAfter m (l1 ++ l2).
Proof.
  intros Hp. rewrite !modelAfter_app. cbn. by rewrite stepModel_failed.
Qed.

Lemma modelAfter_all_failed ps : forall m,
  (forall p, p ∈ ps -> decodedOf p = None) -> modelAfter m ps = m.
Proof.
  induction ps as [|p ps IH]; intros m Hall; cbn; [done|].
  rewrite stepModel_failed by (apply Hall; by left).
  apply IH. intros q Hq. apply Hall. by right.
Qed.

(** A key that no decoded project of [ps] is stored under, and that is not
    a pseudo-group, is left as it was. *)
Lemma modelAfter_keep k ps : forall m,
  not_pseudo k ->
  (forall q, q ∈ ps -> is_Some (decodedOf q) -> projectName q <> k) ->
  Maintainers_Org (modelAfter m ps) !! k = Maintainers_Org m !! k.
Proof.
  induction ps as [|p ps IH]; intros m Hk Hps; cbn; [done|].
  rewrite IH; [|done|intros q Hq; apply Hps; by right].
  unfold stepModel. destruct (decodedOf p) as [d|] eqn:Hd; [|done]. cbn.
  apply mergeOrgs_lookup_other; [done|]. apply Hps; [by left|by eexists].
Qed.

Lemma decoded_cons_Some p ps d :
  decodedOf p = Some d -> decoded (p :: ps) = d :: decoded ps.
Proof. unfold decoded. cbn. by intros ->. Qed.

Lemma decoded_cons_None p ps :
  decodedOf p = None -> decoded (p :: ps) = decoded ps.
Proof. unfold decoded. cbn. by intros ->. Qed.

Lemma extendOrg_extendOrg l1 l2 o :
  extendOrg l2 (extendOrg l1 o) = extendOrg (l1 ++ l2) o.
Proof. unfold extendOrg. cbn. by rewrite app_assoc. Qed.

(** The running "Curators" group is the concatenation, in the order of the
    list, of the curators of the decoded projects. *)
Lemma modelAfter_curators ps : forall m o,
  (forall q, q ∈ ps -> projectName q <> "Curators") ->
  Maintainers_Org m !! "Curators" = Some o ->
  Maintainers_Org (modelAfter m ps) !! "Curators" =
  Some (extendOrg (concat (curatorsOf <$> decoded ps)) o).
Proof.
  induction ps as [|p ps IH]; intros m o Hps Ho.
  - cbn. by rewrite extendOrg_nil.
  - assert (Hrest : forall q, q ∈ ps -> projectName q <> "Curators")
      by (intros q Hq; apply Hps; by right).
    rewrite modelAfter_cons. unfold stepModel.
    destruct (decodedOf p) as [d|] eqn:Hd.
    + rewrite (decoded_cons_Some _ _ _ Hd), fmap_cons. cbn [concat].
      rewrite (IH _ (extendOrg (curatorsOf d) o)); [|done|].
      * by rewrite extendOrg_extendOrg.
      * cbn. rewrite mergeOrgs_lookup_curators by (apply Hps; by left).
        by rewrite Ho.
    + rewrite (decoded_cons_None _ _ Hd). by apply IH.
Qed.

Lemma modelAfter_docs ps : forall m o,
  (forall q, q ∈ ps -> projectName q <> "Docs maintainers") ->
  Maintainers_Org m !! "Docs maintainers" = Some o ->
  Maintainers_Org (modelAfter m ps) !! "Docs maintainers" =
  Some (extendOrg (concat (docsOf <$> decoded ps)) o).
Proof.
  induction ps as [|p ps IH]; intros m o Hps Ho.
  - cbn. by rewrite extendOrg_nil.
  - assert (Hrest : forall q, q ∈ ps -> projectName q <> "Docs maintainers")
      by (intros q Hq; apply Hps; by right).
    rewrite modelAfter_cons. unfold stepModel.
    destruct (decodedOf p) as [d|] eqn:Hd.
    + rewrite (decoded_cons_Some _ _ _ Hd), fmap_cons. cbn [concat].
      rewrite (IH _ (extendOrg (docsOf d) o)); [|done|].
      * by rewrite extendOrg_extendOrg.
      * cbn. rewrite mergeOrgs_lookup_docs by (apply Hps; by left).
        by rewrite Ho.
    + rewrite (decoded_cons_None _ _ Hd). by apply IH.
Qed.

(** The group of a decoded project, once no later decoded project is
    stored under its name. *)
Lemma modelAfter_group m l1 p l2 d :
  decodedOf p = Some d -> not_pseudo (projectName p) ->
  (forall q, q ∈ l2 -> is_Some (decodedOf q) -> projectName q <> projectName p) ->
  Maintainers_Org (modelAfter m (l1 ++ p :: l2)) !! projectName p =
  Some (mkOrg (normalize (projectPeople d))).
Proof.
  intros Hd Hk Hl2. rewrite modelAfter_app. cbn.
  rewrite modelAfter_keep by done.
  unfold stepModel. rewrite Hd. cbn. by apply mergeOrgs_lookup_name.
Qed.

Lemma finalOrgs_lookup_other orgs k :
  not_pseudo k -> finalOrgs orgs !! k = orgs !! k.
Proof. intros [Hc Hd]. unfold finalOrgs. by rewrite !lookup_alter_ne. Qed.

Lemma finalOrgs_lookup_curators orgs :
  finalOrgs orgs !! "Curators" = dedupeOrg <$> orgs !! "Curators".
Proof.
  unfold finalOrgs. rewrite lookup_alter_ne by done. by rewrite lookup_alter_eq.
Qed.

Lemma finalOrgs_lookup_docs orgs :
  finalOrgs orgs !! "Docs maintainers" = dedupeOrg <$> orgs !! "Docs maintainers".
Proof.
  unfold finalOrgs. rewrite lookup_alter_eq. by rewrite lookup_alter_ne.
Qed.

(** ** The configured list *)

Lemma projects_names_NoDup : NoDup (projectName <$> projects).
Proof. apply (bool_decide_unpack _). by vm_compute. Qed.

Lemma projects_names_not_pseudo p : p ∈ projects -> not_pseudo (projectName p).
Proof.
  assert (H : Forall not_pseudo (projectName <$> projects)).
  { apply (bool_decide_unpack _). by vm_compute. }
  intros Hp. rewrite Forall_fmap, Forall_forall in H. by apply H.
Qed.

(** A configured project heads a suffix in which no other project shares
    its name. *)
Lemma projects_split p :
  p ∈ projects ->
  exists l1 l2, projects = l1 ++ p :: l2 /\
    (forall q, q ∈ l1 ++ l2 -> projectName q <> projectName p).
Proof.
  intros Hp. pose proof projects_names_NoDup as Hnd.
  apply list_elem_of_split in Hp as (l1 & l2 & Heq).
  exists l1, l2. split; [done|]. rewrite Heq in Hnd.
  rewrite fmap_app, fmap_cons in Hnd.
  apply NoDup_app in Hnd as (_ & H1 & H2).
  apply NoDup_cons in H2 as [H2 _].
  intros q [Hq|Hq]%elem_of_app Hname.
  - apply (H1 (projectName q)); [by apply list_elem_of_fmap_2|].
    rewrite Hname. by left.
  - apply H2. rewrite <- Hname. by apply list_elem_of_fmap_2.
Qed.

(** ** The global person mapping *)

Lemma mergePeople_snoc entries e people :
  mergePeople (entries ++ [e]) people =
  <[ToLower e.1 := e.2]> (mergePeople entries people).
Proof. unfold mergePeople. by rewrite foldl_app. Qed.

Lemma mergePeople_lookup_ne entries people k :
  (forall n r, (n, r) ∈ entries -> ToLower n <> k) ->
  mergePeople entries people !! k = people !! k.
Proof.
  induction entries as [|[n r] entries IH] using rev_ind; intros Hne; [done|].
  rewrite mergePeople_snoc. cbn.
  rewrite lookup_insert_ne.
  - apply IH. intros n' r' Hin. apply (Hne n' r'). apply elem_of_app. by left.
  - apply (Hne n r). apply elem_of_app. right. by apply list_elem_of_singleton.
Qed.

(** Where every entry lowercasing to [k] carries the record [r], and there
    is one, [k] ends up at [r] whatever the order of the range. *)
Lemma mergePeople_lookup_eq entries people k r :
  (exists n, (n, r) ∈ entries /\ ToLower n = k) ->
  (forall n' r', (n', r') ∈ entries -> ToLower n' = k -> r' = r) ->
  mergePeople entries people !! k = Some r.
Proof.
  induction entries as [|[n0 r0] entries IH] using rev_ind;
    intros (n & Hin & Hn) Hall.
  - by apply elem_of_nil in Hin.
  - rewrite mergePeople_snoc. cbn.
    destruct (decide (ToLower n0 = k)) as [Heq|Hne].
    + rewrite Heq, lookup_insert_eq. f_equal.
      apply (Hall n0 r0); [|done].
      apply elem_of_app. right. by apply list_elem_of_singleton.
    + rewrite lookup_insert_ne by done. apply IH.
      * apply elem_of_app in Hin as [Hin|Hin%list_elem_of_singleton].
        -- by exists n.
        -- congruence.
      * intros n' r' Hin'. apply Hall. apply elem_of_app. by left.
Qed.

Lemma mergePeople_keys entries people k :
  is_Some (mergePeople entries people !! k) ->
  is_Some (people !! k) \/ exists n r, (n, r) ∈ entries /\ k = ToLower n.
Proof.
  induction entries as [|[n0 r0] entries IH] using rev_ind; [by left|].
  rewrite mergePeople_snoc. cbn. rewrite lookup_insert_is_Some.
  intros [Heq|[_ [Hk|(n & r & Hin & Hn)]%IH]].
  - right. exists n0, r0. split; [|done].
    apply elem_of_app. right. by apply list_elem_of_singleton.
  - by left.
  - right. exists n, r. split; [|done]. apply elem_of_app. by left.
Qed.

Lemma decodedOf_Some p d : decodedOf p = Some d ↔ fetched p = Ok d.
Proof. unfold decodedOf. destruct (fetched p); split; congruence. Qed.

Lemma decodedOf_None p : decodedOf p = None ↔ exists err, fetched p = Err err.
Proof.
  unfold decodedOf. destruct (fetched p) as [d|err]; split;
    try done; [by intros [? ?]|by eexists].
Qed.

Lemma modelAfter_people_keep k ps : forall m,
  undeclared_in k ps ->
  Maintainers_People (modelAfter m ps) !! k = Maintainers_People m !! k.
Proof.
  induction ps as [|p ps IH]; intros m Hun; [done|].
  rewrite modelAfter_cons.
  rewrite IH by (intros q d n r Hq; apply Hun; by right).
  unfold stepModel. destruct (decodedOf p) as [d|] eqn:Hd; [|done]. cbn.
  apply mergePeople_lookup_ne. intros n r Hin.
  apply (Hun p d n r); [by left|by apply decodedOf_Some|done].
Qed.

Lemma modelAfter_people_keys ps : forall m k,
  is_Some (Maintainers_People (modelAfter m ps) !! k) ->
  is_Some (Maintainers_People m !! k) \/ lowercase_form k.
Proof.
  induction ps as [|p ps IH]; intros m k; [by left|].
  rewrite modelAfter_cons. intros [Hk|Hk]%IH; [|by right].
  unfold stepModel in Hk. destruct (decodedOf p) as [d|]; [|by left]. cbn in Hk.
  apply mergePeople_keys in Hk as [Hk|(n & r & _ & ->)]; [by left|].
  right. by exists n.
Qed.

(** ** [getProjectOrg] and the first slash *)

Lemma cut_without sep s : contains_byte sep s = false -> cut sep s = None.
Proof.
  induction s as [|c s IH]; cbn; [done|].
  destruct (Ascii.eqb c sep); cbn; [done|]. by intros ->%IH.
Qed.

Lemma cut_at_first sep s :
  contains_byte sep s = true ->
  exists l r, s = l +:+ String sep r /\ contains_byte sep l = false /\
              cut sep s = Some (l, r).
Proof.
  induction s as [|c s IH]; cbn; [done|].
  destruct (Ascii.eqb_spec c sep) as [->|Hne]; cbn.
  - intros _. by exists EmptyString, s.
  - intros (l & r & -> & Hl & ->)%IH. exists (String c l), r. cbn.
    split_and!; [done| |done].
    by destruct (Ascii.eqb_spec c sep).
Qed.

Lemma getProjectOrg_slash project :
  contains_byte "/" project = true ->
  exists org name, project = org +:+ "/" +:+ name /\
    contains_byte "/" org = false /\ getProjectOrg project = (org, name).
Proof.
  intros (l & r & Heq & Hl & Hcut)%cut_at_first. exists l, r.
  split_and!; [done..|]. unfold getProjectOrg, SplitN2. by rewrite Hcut.
Qed.

Lemma getProjectOrg_no_slash project :
  contains_byte "/" project = false -> getProjectOrg project = (defaultOrg, project).
Proof.
  intros Hcut%cut_without. unfold getProjectOrg, SplitN2. by rewrite Hcut.
Qed.

Lemma append_nil_l (s : string) : "" +:+ s = s.
Proof. done. Qed.

Lemma append_cons c (l s : string) : String c l +:+ s = String c (l +:+ s).
Proof. done. Qed.

Lemma cut_unique sep l r :
  contains_byte sep l = false -> cut sep (l +:+ String sep r) = Some (l, r).
Proof.
  induction l as [|c l IH].
  - rewrite append_nil_l. cbn [cut]. by rewrite Ascii.eqb_refl.
  - rewrite append_cons. cbn [contains_byte cut].
    destruct (Ascii.eqb c sep); cbn [orb]; [done|]. by intros ->%IH.
Qed.

(** ** The group of a configured project in the final model *)

Lemma initial_lookup_other k : not_pseudo k -> orgsOf initial !! k = None.
Proof.
  intros [Hc Hd]. unfold orgsOf, initial. cbn.
  by rewrite !lookup_insert_ne, lookup_empty.
Qed.

Lemma main_group p d :
  p ∈ projects -> fetched p = Ok d ->
  exists st, main = Some st /\
    orgsOf st !! projectName p = Some (mkOrg (normalize (projectPeople d))).
Proof.
  intros Hp Hd. pose proof (projects_names_not_pseudo p Hp) as Hk.
  destruct (projects_split p Hp) as (l1 & l2 & Heq & Hnames).
  destruct (run_model projects) as (st & Hrun & Horgs & _).
  exists st. split; [done|]. rewrite Horgs, finalOrgs_lookup_other by done.
  rewrite Heq. apply modelAfter_group; [by apply decodedOf_Some|done|].
  intros q Hq _. apply Hnames. apply elem_of_app. by right.
Qed.

Lemma normalize_lowercase l x : x ∈ normalize l -> lowercase_form x.
Proof.
  unfold normalize. rewrite sort_Strings_elem_of, list_elem_of_fmap.
  intros (n0 & -> & _). by exists n0.
Qed.

(** The keys of the global person mapping are lowercase forms. *)
Lemma people_keys_lowercase ps st k :
  run ps = Some st -> is_Some (peopleOf st !! k) -> lowercase_form k.
Proof.
  destruct (run_model ps) as (st' & -> & _ & Hpeople).
  intros [= <-]. rewrite Hpeople.
  intros [Hk|Hk]%modelAfter_people_keys; [|done].
  cbn in Hk. rewrite lookup_empty in Hk. by destruct Hk.
Qed.

(** The group of a decoded configured project holds lowercase forms. *)
Lemma project_groups_lowercase p d st x g :
  p ∈ projects -> fetched p = Ok d -> main = Some st ->
  orgsOf st !! projectName p = Some g -> x ∈ Org_People g -> lowercase_form x.
Proof.
  intros Hp Hd Hmain Hg Hx.
  destruct (main_group p d Hp Hd) as (st' & Hmain' & Hg').
  rewrite Hmain in Hmain'. injection Hmain' as <-.
  rewrite Hg in Hg'. injection Hg' as ->. by apply normalize_lowercase in Hx.
Qed.

Lemma concat_fmap_nil {A} (f : A -> list string) (l : list A) :
  (forall a, a ∈ l -> f a = []) -> concat (f <$> l) = [].
Proof.
  induction l as [|a l IH]; intros Hnil; [done|]. cbn.
  rewrite (Hnil a) by (by left). cbn. apply IH. intros b Hb. apply Hnil. by right.
Qed.

(** ** The claims *)

(** C2: a declaration with a primary-maintainers group gives the project
    the people of that group and nothing of the legacy core-maintainers
    group; the legacy list is taken when the primary group is absent; the
    group stored for a configured project with a primary group is the
    normal form of the primary list. *)
Theorem primary_group_takes_precedence (d : MaintainersDepreciated) :
  (forall m, Organization_Maintainers (Depreciated_Organization d) = Some m ->
     projectPeople d = Org_People m) /\
  (forall c, Organization_Maintainers (Depreciated_Organization d) = None ->
     Organization_CoreMaintainers (Depreciated_Organization d) = Some c ->
     projectPeople d = Org_People c) /\
  (forall p m, p ∈ projects -> fetched p = Ok d ->
     Organization_Maintainers (Depreciated_Organization d) = Some m ->
     exists st, main = Some st /\
       orgsOf st !! (getProjectOrg p).2 = Some (mkOrg (normalize (Org_People m)))).
Proof.
  split_and!.
  - intros m Hm. unfold projectPeople. by rewrite Hm.
  - intros c Hm Hc. unfold projectPeople. by rewrite Hm, Hc.
  - intros p m Hp Hd Hm. destruct (main_group p d Hp Hd) as (st & Hmain & Hg).
    unfold projectName in Hg. exists st. split; [done|]. rewrite Hg. unfold projectPeople. by rewrite Hm.
Qed.

(** C3, amended: in [l0 ++ p1 :: l1 ++ p2 :: l2], when [p1] and [p2] are
    decoded and each declares a nickname lowercasing to the same string,
    the final global entry under that string is the record of [p2],
    provided the entries of [p2] lowercasing to it carry one record and no
    decoded project after [p2] declares such a nickname. *)
Theorem last_declaring_project_wins l0 p1 l1 p2 l2 d1 d2 n1 r1 n2 r2 :
  fetched p1 = Ok d1 -> fetched p2 = Ok d2 ->
  (n1, r1) ∈ Depreciated_People d1 -> (n2, r2) ∈ Depreciated_People d2 ->
  ToLower n1 = ToLower n2 ->
  (forall n r, (n, r) ∈ Depreciated_People d2 -> ToLower n = ToLower n2 -> r = r2) ->
  undeclared_in (ToLower n2) l2 ->
  exists st, run (l0 ++ p1 :: l1 ++ p2 :: l2) = Some st /\
             peopleOf st !! ToLower n1 = Some r2.
Proof.
  intros _ Hd2 _ Hin2 Hlow Hsame Hlater.
  destruct (run_model (l0 ++ p1 :: l1 ++ p2 :: l2)) as (st & Hrun & _ & Hpeople).
  exists st. split; [done|]. rewrite Hpeople, Hlow.
  replace (l0 ++ p1 :: l1 ++ p2 :: l2) with ((l0 ++ p1 :: l1) ++ p2 :: l2)
    by (by rewrite <- app_assoc).
  rewrite modelAfter_app, modelAfter_cons, modelAfter_people_keep by done.
  unfold stepModel. apply decodedOf_Some in Hd2. rewrite Hd2. cbn.
  apply mergePeople_lookup_eq; [by exists n2|done].
Qed.

(** C4: the list [removeDuplicates] returns is in ascending order, has no
    repeated element, and is returned unchanged by [removeDuplicates]. *)
Theorem removeDuplicates_sorted_distinct_idempotent (slice : list string) :
  Sorted string_le (removeDuplicates slice) /\
  NoDup (removeDuplicates slice) /\
  removeDuplicates (removeDuplicates slice) = removeDuplicates slice.
Proof.
  split_and!.
  - apply removeDuplicates_Sorted.
  - apply removeDuplicates_NoDup.
  - apply removeDuplicates_fixed;
      [apply removeDuplicates_NoDup|apply removeDuplicates_Sorted].
Qed.

(** C5: an identifier with a slash is split at its first slash into the
    organization on the left and the name on the right; one without a
    slash is the name of a project of the organization "docker". *)
Theorem getProjectOrg_splits_at_first_slash (project : string) :
  (contains_byte "/" project = true ->
     exists org name, project = org +:+ "/" +:+ name /\
       contains_byte "/" org = false /\ getProjectOrg project = (org, name)) /\
  (contains_byte "/" project = false -> getProjectOrg project = ("docker", project)).
Proof.
  split; [apply getProjectOrg_slash|apply getProjectOrg_no_slash].
Qed.

(** C6: for a configured project that was fetched and decoded, the final
    model holds, under the name right of the first slash of the
    identifier, the people of the project lowercased and then sorted. *)
Theorem project_group_normalized_under_bare_name (p : string)
    (d : MaintainersDepreciated) :
  p ∈ projects -> fetched p = Ok d ->
  exists st, main = Some st /\
    orgsOf st !! (getProjectOrg p).2 =
      Some (mkOrg (sort_Strings (map ToLower (projectPeople d)))) /\
    Sorted string_le (sort_Strings (map ToLower (projectPeople d))) /\
    (forall org name, p = org +:+ "/" +:+ name -> contains_byte "/" org = false ->
       (getProjectOrg p).2 = name).
Proof.
  intros Hp Hd. destruct (main_group p d Hp Hd) as (st & Hmain & Hg).
  exists st. split_and!; [done|done|apply sort_Strings_Sorted|].
  intros org name -> Horg. unfold getProjectOrg, SplitN2.
  change (org +:+ "/" +:+ name) with (org +:+ String "/" name).
  by rewrite cut_unique.
Qed.

(** C7: a project whose fetch or decode fails is logged, at the error
    level, under its name and with the [org/project] of the failure, and
    leaves the combined model as it was; the run over a list with the
    project has the model of the run over the list without it; a
    configured project that fails has no key in the final model. *)
Theorem failed_project_contributes_nothing (p err : string) :
  fetched p = Err err ->
  (forall st, processProject st p =
     Some (mkState (projectMaintainers st)
             (logged st ++
              [(InfoLevel,
                (getProjectOrg p).1 +:+ "/" +:+ (getProjectOrg p).2
                +:+ ": loading MAINTAINERS file from "
                +:+ fileUrl (getProjectOrg p).1 (getProjectOrg p).2);
               (ErrorLevel,
                (getProjectOrg p).2 +:+ ": parsing MAINTAINERS file failed: "
                +:+ err)]))) /\
  (exists cause,
     err = (getProjectOrg p).1 +:+ "/" +:+ (getProjectOrg p).2 +:+ ": " +:+ cause) /\
  (forall l1 l2, exists st st',
     run (l1 ++ p :: l2) = Some st /\ run (l1 ++ l2) = Some st' /\
     projectMaintainers st = projectMaintainers st') /\
  (p ∈ projects ->
     exists st, main = Some st /\ orgsOf st !! (getProjectOrg p).2 = None).
Proof.
  intros Hf. split_and!.
  - intros st. rewrite (processProject_Err st p err Hf).
    by rewrite getMaintainers_log.
  - revert Hf. unfold fetched, getMaintainers.
    destruct (http_Get env _) as [resp|e]; [|intros [= <-]; by eexists].
    destruct (ioutil_ReadAll env _) as [file|e]; [|intros [= <-]; by eexists].
    destruct (toml_Decode env _) as [d|e]; [done|]. intros [= <-].
    by exists ("parsing MAINTAINERS file failed: " +:+ e).
  - intros l1 l2.
    destruct (run_model (l1 ++ p :: l2)) as (st & Hrun & Ho & Hp).
    destruct (run_model (l1 ++ l2)) as (st' & Hrun' & Ho' & Hp').
    exists st, st'. split_and!; [done..|].
    rewrite modelAfter_skip in Ho, Hp by (apply decodedOf_None; by eexists).
    unfold orgsOf, peopleOf in *. destruct (projectMaintainers st),
      (projectMaintainers st'). cbn in *. congruence.
  - intros Hin. pose proof (projects_names_not_pseudo p Hin) as Hk.
    destruct (projects_split p Hin) as (l1 & l2 & Heq & Hnames).
    destruct (run_model projects) as (st & Hrun & Horgs & _).
    exists st. split; [done|].
    change ((getProjectOrg p).2) with (projectName p).
    rewrite Horgs, finalOrgs_lookup_other by done.
    rewrite modelAfter_keep; [by apply initial_lookup_other|done|].
    intros q Hq [d Hd]. rewrite Heq in Hq.
    apply elem_of_app in Hq as [Hq|[->|Hq]%elem_of_cons].
    + apply Hnames, elem_of_app. by left.
    + apply decodedOf_Some in Hd. congruence.
    + apply Hnames, elem_of_app. by right.
Qed.

(** C8: when the loop over the configured projects ends, "Curators" and
    "Docs maintainers" hold the curators and the docs maintainers of the
    decoded projects, as decoded and in the order of the list; the final
    model holds [removeDuplicates] of these lists; and [removeDuplicates]
    gives one result for two lists with the same elements. *)
Theorem pseudo_groups_deduped_after_loop :
  (exists st0 st,
     processAll initial projects = Some st0 /\ main = Some st /\
     orgsOf st0 !! "Curators" =
       Some (mkOrg (concat (curatorsOf <$> decoded projects))) /\
     orgsOf st0 !! "Docs maintainers" =
       Some (mkOrg (concat (docsOf <$> decoded projects))) /\
     orgsOf st !! "Curators" =
       Some (mkOrg (removeDuplicates (concat (curatorsOf <$> decoded projects)))) /\
     orgsOf st !! "Docs maintainers" =
       Some (mkOrg (removeDuplicates (concat (docsOf <$> decoded projects))))) /\
  (forall l1 l2 : list string,
     (forall x, x ∈ l1 ↔ x ∈ l2) -> removeDuplicates l1 = removeDuplicates l2).
Proof.
  split; [|apply removeDuplicates_same_set].
  destruct (processAll_model projects initial has_pseudo_initial) as (st0 & Hall & Hm).
  destruct (run_model projects) as (st & Hrun & Horgs & _).
  assert (Hc : orgsOf st0 !! "Curators" =
               Some (mkOrg (concat (curatorsOf <$> decoded projects)))).
  { unfold orgsOf. rewrite Hm.
    rewrite (modelAfter_curators projects _ (mkOrg [])); [done| |done].
    intros q Hq. apply (proj1 (projects_names_not_pseudo q Hq)). }
  assert (Hd : orgsOf st0 !! "Docs maintainers" =
               Some (mkOrg (concat (docsOf <$> decoded projects)))).
  { unfold orgsOf. rewrite Hm.
    rewrite (modelAfter_docs projects _ (mkOrg [])); [done| |done].
    intros q Hq. apply (proj2 (projects_names_not_pseudo q Hq)). }
  exists st0, st. split_and!; [done..| |].
  - rewrite Horgs, finalOrgs_lookup_curators, <- Hm. fold (orgsOf st0).
    by rewrite Hc.
  - rewrite Horgs, finalOrgs_lookup_docs, <- Hm. fold (orgsOf st0).
    by rewrite Hd.
Qed.

(** C9: both pseudo-groups are in the model, empty, before the loop; every
    run returns a model that has both; they are empty when every project
    fails, and, for the configured list, when no decoded project declares
    curators or docs maintainers. *)
Theorem pseudo_groups_always_present :
  orgsOf initial !! "Curators" = Some (mkOrg []) /\
  orgsOf initial !! "Docs maintainers" = Some (mkOrg []) /\
  (forall ps, exists st, run ps = Some st /\
     is_Some (orgsOf st !! "Curators") /\
     is_Some (orgsOf st !! "Docs maintainers")) /\
  (forall ps, (forall p, p ∈ ps -> exists err, fetched p = Err err) ->
     exists st, run ps = Some st /\
       orgsOf st !! "Curators" = Some (mkOrg []) /\
       orgsOf st !! "Docs maintainers" = Some (mkOrg [])) /\
  ((forall d, d ∈ decoded projects -> curatorsOf d = [] /\ docsOf d = []) ->
     exists st, main = Some st /\
       orgsOf st !! "Curators" = Some (mkOrg []) /\
       orgsOf st !! "Docs maintainers" = Some (mkOrg [])).
Proof.
  split_and!; [done|done| | |].
  - intros ps. destruct (run_model ps) as (st & Hrun & Horgs & _).
    exists st. split; [done|]. rewrite Horgs.
    destruct (has_pseudo_modelAfter ps _ has_pseudo_initial) as [Hc Hd].
    rewrite finalOrgs_lookup_curators, finalOrgs_lookup_docs.
    by rewrite !fmap_is_Some.
  - intros ps Hfail. destruct (run_model ps) as (st & Hrun & Horgs & _).
    exists st. split; [done|]. rewrite Horgs.
    rewrite modelAfter_all_failed
      by (intros q Hq; apply decodedOf_None; by apply Hfail).
    by rewrite finalOrgs_lookup_curators, finalOrgs_lookup_docs.
  - intros Hnone. destruct (run_model projects) as (st & Hrun & Horgs & _).
    exists st. split; [done|]. rewrite Horgs.
    rewrite finalOrgs_lookup_curators, finalOrgs_lookup_docs.
    rewrite (modelAfter_curators projects _ (mkOrg []));
      [|intros q Hq; apply (proj1 (projects_names_not_pseudo q Hq))|done].
    rewrite (modelAfter_docs projects _ (mkOrg []));
      [|intros q Hq; apply (proj2 (projects_names_not_pseudo q Hq))|done].
    rewrite !concat_fmap_nil; [done|intros d Hd; by apply Hnone..].
Qed.

(** C10: a configured project that was fetched and decoded and has neither
    a primary nor a legacy group is in the final model, under its name,
    with an empty people list. *)
Theorem project_without_groups_gets_empty_group (p : string)
    (d : MaintainersDepreciated) :
  p ∈ projects -> fetched p = Ok d ->
  Organization_Maintainers (Depreciated_Organization d) = None ->
  Organization_CoreMaintainers (Depreciated_Organization d) = None ->
  exists st, main = Some st /\ orgsOf st !! (getProjectOrg p).2 = Some (mkOrg []).
Proof.
  intros Hp Hd Hm Hc. destruct (main_group p d Hp Hd) as (st & Hmain & Hg).
  exists st. split; [done|]. unfold projectName in Hg. rewrite Hg.
  unfold projectPeople. by rewrite Hm, Hc.
Qed.

(** ** Further properties of [removeDuplicates] *)

(** X1: [removeDuplicates] neither drops nor invents a string: its result
    has exactly the elements of its argument, and is empty only for the
    empty list. *)
Theorem removeDuplicates_keeps_the_elements (slice : list string) :
  (forall x, x ∈ removeDuplicates slice ↔ x ∈ slice) /\
  (removeDuplicates slice = [] ↔ slice = []).
Proof.
  split; [intros x; apply removeDuplicates_elem_of|]. split.
  - intros Hnil. destruct slice as [|x rest]; [done|].
    assert (Hx : x ∈ removeDuplicates (x :: rest))
      by (apply removeDuplicates_elem_of; by left).
    rewrite Hnil in Hx. inversion Hx.
  - by intros ->.
Qed.

(** X2: the result is never longer than the argument, has its length
    exactly when the argument has no repetition, and is then a
    rearrangement of it. *)
Theorem removeDuplicates_length (slice : list string) :
  length (removeDuplicates slice) <= length slice /\
  (length (removeDuplicates slice) = length slice ↔ NoDup slice) /\
  (NoDup slice -> removeDuplicates slice ≡ₚ slice).
Proof.
  assert (Hsub : removeDuplicates slice ⊆+ slice).
  { apply NoDup_submseteq; [apply removeDuplicates_NoDup|].
    intros x. by rewrite removeDuplicates_elem_of. }
  assert (Hperm : NoDup slice -> removeDuplicates slice ≡ₚ slice).
  { intros Hnd. apply NoDup_Permutation; [apply removeDuplicates_NoDup|done|].
    intros x. apply removeDuplicates_elem_of. }
  split_and!; [by apply submseteq_length| |done].
  split.
  - intros Hlen. rewrite <- (submseteq_length_Permutation _ _ Hsub) by lia.
    apply removeDuplicates_NoDup.
  - intros Hnd. by rewrite (Hperm Hnd).
Qed.

(** X3: deduplicating two lists apart and then their concatenation gives
    what deduplicating the concatenation gives, in either order of the two
    lists. *)
Theorem removeDuplicates_app (l1 l2 : list string) :
  removeDuplicates (removeDuplicates l1 ++ removeDuplicates l2)
    = removeDuplicates (l1 ++ l2) /\
  removeDuplicates (l2 ++ l1) = removeDuplicates (l1 ++ l2).
Proof.
  split; apply removeDuplicates_same_set; intros x;
    rewrite !elem_of_app, ?removeDuplicates_elem_of; tautology.
Qed.

(** ** Further properties of [getProjectOrg] and of the URL *)

Lemma getProjectOrg_org_no_slash p : contains_byte "/" (getProjectOrg p).1 = false.
Proof.
  destruct (contains_byte "/" p) eqn:Hp.
  - destruct (getProjectOrg_slash p Hp) as (o & n & _ & Ho & ->). done.
  - by rewrite (getProjectOrg_no_slash p Hp).
Qed.

Lemma getProjectOrg_join o n :
  contains_byte "/" o = false -> getProjectOrg (o +:+ "/" +:+ n) = (o, n).
Proof.
  intros Ho. unfold getProjectOrg, SplitN2.
  change (o +:+ "/" +:+ n) with (o +:+ String "/" n). by rewrite cut_unique.
Qed.

(** X4: the organization [getProjectOrg] returns has no slash; joining the
    two results with a slash gives an identifier with the same results; and
    the identifier is that join, or else has no organization of its own and
    is the name, the organization being "docker". *)
Theorem getProjectOrg_canonical (project : string) :
  contains_byte "/" (getProjectOrg project).1 = false /\
  getProjectOrg ((getProjectOrg project).1 +:+ "/" +:+ (getProjectOrg project).2)
    = getProjectOrg project /\
  (project = (getProjectOrg project).1 +:+ "/" +:+ (getProjectOrg project).2 \/
   (getProjectOrg project).1 = "docker" /\ project = (getProjectOrg project).2).
Proof.
  split_and!.
  - apply getProjectOrg_org_no_slash.
  - rewrite getProjectOrg_join by apply getProjectOrg_org_no_slash.
    by destruct (getProjectOrg project).
  - destruct (contains_byte "/" project) eqn:Hp.
    + left. destruct (getProjectOrg_slash project Hp) as (o & n & Heq & _ & ->).
      done.
    + right. by rewrite (getProjectOrg_no_slash project Hp).
Qed.

(** X5: an identifier that starts with a slash has the empty organization,
    not the default one, and one that ends with its only slash has the
    empty name. *)
Theorem getProjectOrg_empty_parts :
  (forall name, getProjectOrg ("/" +:+ name) = ("", name)) /\
  (forall org, contains_byte "/" org = false -> getProjectOrg (org +:+ "/") = (org, "")).
Proof.
  split.
  - intros name. by apply (getProjectOrg_join "" name).
  - intros org Horg. by apply (getProjectOrg_join org "").
Qed.

Lemma append_inv_head (a x y : string) : a +:+ x = a +:+ y -> x = y.
Proof.
  induction a as [|c a IH]; [done|]. rewrite !append_cons. intros [= H]. auto.
Qed.

Lemma length_append_string (a b : string) :
  String.length (a +:+ b) = String.length a + String.length b.
Proof.
  induction a as [|c a IH]; [done|]. rewrite append_cons. cbn. by rewrite IH.
Qed.

Lemma append_inv_tail (s a b : string) : a +:+ s = b +:+ s -> a = b.
Proof.
  revert b. induction a as [|c a IH]; intros [|c' b].
  - done.
  - rewrite append_nil_l, append_cons. intros H.
    apply (f_equal String.length) in H. cbn in H.
    rewrite length_append_string in H. lia.
  - rewrite append_nil_l, append_cons. intros H.
    apply (f_equal String.length) in H. cbn in H.
    rewrite length_append_string in H. lia.
  - rewrite !append_cons. intros [= -> H]. f_equal. by apply IH.
Qed.

Lemma fileUrl_inj o1 p1 o2 p2 :
  contains_byte "/" o1 = false -> contains_byte "/" o2 = false ->
  fileUrl o1 p1 = fileUrl o2 p2 -> o1 = o2 /\ p1 = p2.
Proof.
  intros H1 H2. unfold fileUrl. intros H%append_inv_head.
  change ("/" +:+ o1 +:+ "/" +:+ p1 +:+ "/master/MAINTAINERS")
    with (String "/" (o1 +:+ String "/" (p1 +:+ "/master/MAINTAINERS"))) in H.
  change ("/" +:+ o2 +:+ "/" +:+ p2 +:+ "/master/MAINTAINERS")
    with (String "/" (o2 +:+ String "/" (p2 +:+ "/master/MAINTAINERS"))) in H.
  injection H as H. apply (f_equal (cut "/")) in H.
  rewrite !cut_unique in H by done. injection H as -> H.
  split; [done|]. by apply append_inv_tail in H.
Qed.

(** X6: two identifiers are fetched from the same URL only if
    [getProjectOrg] gives them the same organization and name. *)
Theorem fetched_url_determines_project (p q : string) :
  fileUrl (getProjectOrg p).1 (getProjectOrg p).2
    = fileUrl (getProjectOrg q).1 (getProjectOrg q).2 ->
  getProjectOrg p = getProjectOrg q.
Proof.
  intros H. apply fileUrl_inj in H as [H1 H2];
    try apply getProjectOrg_org_no_slash.
  destruct (getProjectOrg p), (getProjectOrg q). cbn in *. congruence.
Qed.

(** ** Further properties of [getMaintainers] and of the log *)

(** X7: [getMaintainers] returns a declaration exactly when the request,
    the read of the body and the decoding succeed in turn, the request
    being made at [fileUrl]; the declaration is the one decoded, and one
    line is logged whatever the result. *)
Theorem getMaintainers_succeeds_iff (org project : string)
    (d : MaintainersDepreciated) :
  ((getMaintainers org project).2 = Ok d ↔
   exists resp file,
     http_Get env (fileUrl org project) = Ok resp /\
     ioutil_ReadAll env resp = Ok file /\
     toml_Decode env file = Ok d) /\
  length (getMaintainers org project).1 = 1.
Proof.
  split; [|by rewrite getMaintainers_log].
  unfold getMaintainers.
  destruct (http_Get env _) as [resp|e] eqn:Hget; cbn.
  - destruct (ioutil_ReadAll env resp) as [file|e] eqn:Hread; cbn.
    + destruct (toml_Decode env file) as [d'|e] eqn:Hdec; cbn.
      * split; [intros [= ->]; by exists resp, file|].
        intros (resp' & file' & [= <-] & Hr & Hd). congruence.
      * split; [done|]. intros (resp' & file' & [= <-] & Hr & Hd). congruence.
    + split; [done|]. intros (resp' & file' & [= <-] & Hr & _). congruence.
  - split; [done|]. by intros (resp' & file' & [=] & _).
Qed.


Lemma processProject_logged st p :
  has_pseudo (orgsOf st) ->
  exists st', processProject st p = Some st' /\
    has_pseudo (orgsOf st') /\ logged st' = logged st ++ projectLog p.
Proof.
  intros Hps. unfold projectLog.
  destruct (fetched p) as [d|err] eqn:Hf.
  - rewrite (processProject_Ok st p d Hf Hps). eexists. split; [done|].
    split; [by apply has_pseudo_mergeOrgs|]. cbn. by rewrite app_nil_r.
  - rewrite (processProject_Err st p err Hf). eexists. by split.
Qed.

Lemma processAll_logged ps : forall st,
  has_pseudo (orgsOf st) ->
  exists st', processAll st ps = Some st' /\
    logged st' = logged st ++ concat (projectLog <$> ps).
Proof.
  induction ps as [|p ps IH]; intros st Hps; cbn.
  - eexists. split; [done|]. by rewrite app_nil_r.
  - destruct (processProject_logged st p Hps) as (st1 & -> & Hps1 & Hl1). cbn.
    destruct (IH st1 Hps1) as (st2 & -> & Hl2).
    eexists. split; [done|]. by rewrite Hl2, Hl1, <- app_assoc.
Qed.

Lemma run_logged ps :
  exists st, run ps = Some st /\ logged st = concat (projectLog <$> ps).
Proof.
  destruct (run_model ps) as (st & Hrun & _).
  destruct (processAll_logged ps initial has_pseudo_initial) as (st0 & Hall & Hlog).
  exists st. split; [done|]. revert Hrun. unfold run. rewrite Hall. cbn.
  destruct (dedupeGroup "Curators" _) as [o1|]; [|done]. cbn.
  destruct (dedupeGroup "Docs maintainers" _) as [o2|]; [|done]. cbn.
  intros [= <-]. done.
Qed.

Lemma projectLog_errors p :
  List.filter is_error_line (projectLog p) = if fails p then
    [(ErrorLevel, projectName p +:+ ": parsing MAINTAINERS file failed: " +:+
                  match fetched p with Ok _ => "" | Err err => err end)]
  else [].
Proof.
  unfold projectLog, fails. rewrite getMaintainers_log.
  by destruct (fetched p).
Qed.

(** X9: the log of a run is, project after project in the order of the
    list, the line of the fetch followed, for a project that failed, by
    one error line; so it has one error line for each failed project and
    one other line for each project. *)
Theorem run_log_follows_the_list (ps : list string) :
  exists st, run ps = Some st /\
    logged st = concat (projectLog <$> ps) /\
    length (List.filter is_error_line (logged st)) = length (List.filter fails ps) /\
    length (logged st) = length ps + length (List.filter fails ps).
Proof.
  destruct (run_logged ps) as (st & Hrun & Hlog).
  exists st. split_and!; [done|done| |]; rewrite Hlog; clear.
  - induction ps as [|p ps IH]; [done|].
    rewrite fmap_cons. cbn [concat List.filter].
    rewrite List.filter_app, length_app, IH, projectLog_errors.
    by destruct (fails p).
  - induction ps as [|p ps IH]; [done|].
    rewrite fmap_cons. cbn [concat List.filter].
    rewrite length_app, IH. unfold projectLog, fails.
    rewrite getMaintainers_log. destruct (fetched p); cbn; lia.
Qed.

(** ** Further properties of the combined model *)

Lemma mergePeople_lookup_Some entries people k r :
  mergePeople entries people !! k = Some r ->
  people !! k = Some r \/ exists n, (n, r) ∈ entries /\ ToLower n = k.
Proof.
  induction entries as [|[n0 r0] entries IH] using rev_ind; [by left|].
  rewrite mergePeople_snoc. cbn. rewrite lookup_insert.
  destruct (decide (ToLower n0 = k)) as [Heq|Hne].
  - intros [= <-]. right. exists n0. split; [|done].
    apply elem_of_app. right. by apply list_elem_of_singleton.
  - intros [Hk|(n & Hin & Hn)]%IH; [by left|].
    right. exists n. split; [|done]. apply elem_of_app. by left.
Qed.

Lemma mergePeople_is_Some entries people k :
  is_Some (people !! k) \/ (exists n r, (n, r) ∈ entries /\ ToLower n = k) ->
  is_Some (mergePeople entries people !! k).
Proof.
  induction entries as [|[n0 r0] entries IH] using rev_ind.
  - intros [H|(n & r & Hin & _)]; [done|inversion Hin].
  - intros H. rewrite mergePeople_snoc. cbn. rewrite lookup_insert_is_Some.
    destruct (decide (ToLower n0 = k)) as [Heq|Hne]; [by left|].
    right. split; [done|]. apply IH.
    destruct H as [H|(n & r & Hin & Hn)]; [by left|].
    apply elem_of_app in Hin as [Hin|Hin%list_elem_of_singleton].
    + right. by exists n, r.
    + congruence.
Qed.

Lemma modelAfter_people_Some ps : forall m k r,
  Maintainers_People (modelAfter m ps) !! k = Some r ->
  Maintainers_People m !! k = Some r \/
  exists p d n, p ∈ ps /\ fetched p = Ok d /\
    (n, r) ∈ Depreciated_People d /\ ToLower n = k.
Proof.
  induction ps as [|p ps IH]; intros m k r; [by left|].
  rewrite modelAfter_cons. intros [Hk|(q & d & n & Hq & Hrest)]%IH.
  - unfold stepModel in Hk. destruct (decodedOf p) as [d|] eqn:Hd; [|by left].
    cbn in Hk. apply mergePeople_lookup_Some in Hk as [Hk|(n & Hin & Hn)];
      [by left|].
    right. exists p, d, n. split_and!; [by left|by apply decodedOf_Some|done..].
  - right. exists q, d, n. split; [by right|done].
Qed.

Lemma modelAfter_people_mono ps : forall m k,
  is_Some (Maintainers_People m !! k) ->
  is_Some (Maintainers_People (modelAfter m ps) !! k).
Proof.
  induction ps as [|p ps IH]; intros m k Hk; [done|].
  rewrite modelAfter_cons. apply IH. unfold stepModel.
  destruct (decodedOf p); [|done]. cbn. apply mergePeople_is_Some. by left.
Qed.

Lemma modelAfter_people_declared ps : forall m p d n r,
  p ∈ ps -> fetched p = Ok d -> (n, r) ∈ Depreciated_People d ->
  is_Some (Maintainers_People (modelAfter m ps) !! ToLower n).
Proof.
  induction ps as [|q ps IH]; intros m p d n r Hp Hf Hin; [inversion Hp|].
  rewrite modelAfter_cons. apply elem_of_cons in Hp as [->|Hp].
  - apply modelAfter_people_mono. unfold stepModel.
    apply decodedOf_Some in Hf. rewrite Hf. cbn.
    apply mergePeople_is_Some. right. by exists n, r.
  - by apply (IH _ p d n r).
Qed.

(** X10: every entry of the final person mapping is the record some
    decoded project declares for a nickname lowercasing to the key, and
    every nickname a decoded project declares has its lowercase form as a
    key. *)
Theorem person_mapping_holds_the_declared (ps : list string) :
  exists st, run ps = Some st /\
    (forall k r, peopleOf st !! k = Some r ->
       exists p d n, p ∈ ps /\ fetched p = Ok d /\
         (n, r) ∈ Depreciated_People d /\ ToLower n = k) /\
    (forall p d n r, p ∈ ps -> fetched p = Ok d ->
       (n, r) ∈ Depreciated_People d -> is_Some (peopleOf st !! ToLower n)).
Proof.
  destruct (run_model ps) as (st & Hrun & _ & Hpeople).
  exists st. split; [done|]. rewrite Hpeople. split.
  - intros k r [Hk|Hk]%modelAfter_people_Some; [|done].
    cbn in Hk. by rewrite lookup_empty in Hk.
  - intros p d n r. apply modelAfter_people_declared.
Qed.

Lemma mergeOrgs_is_Some name d orgs k :
  is_Some (mergeOrgs name d orgs !! k) ↔ name = k \/ is_Some (orgs !! k).
Proof.
  unfold mergeOrgs. rewrite !lookup_alter_is_Some, lookup_insert_is_Some.
  destruct (decide (name = k)); tautology.
Qed.

Lemma modelAfter_orgs_is_Some ps : forall m k,
  is_Some (Maintainers_Org (modelAfter m ps) !! k) ↔
  is_Some (Maintainers_Org m !! k) \/ exists p, p ∈ ps /\ stored_under k p.
Proof.
  induction ps as [|p ps IH]; intros m k.
  - cbn. split; [by left|]. intros [H|(p & Hp & _)]; [done|inversion Hp].
  - rewrite modelAfter_cons, IH. unfold stepModel, stored_under.
    destruct (decodedOf p) as [d|] eqn:Hd; cbn.
    + rewrite mergeOrgs_is_Some. split.
      * intros [[Hname|Hk]|(q & Hq & Hs)].
        -- right. exists p. split; [by left|]. split; [done|]. by rewrite Hd.
        -- by left.
        -- right. exists q. split; [by right|done].
      * intros [Hk|(q & [->|Hq]%elem_of_cons & Hname & Hs)].
        -- left. by right.
        -- left. by left.
        -- right. by exists q.
    + split.
      * intros [Hk|(q & Hq & Hs)]; [by left|].
        right. exists q. split; [by right|done].
      * intros [Hk|(q & [->|Hq]%elem_of_cons & Hname & Hs)]; [by left| |].
        -- rewrite Hd in Hs. by destruct Hs.
        -- right. by exists q.
Qed.

(** X11: the keys of the final group mapping are the two pseudo-group
    names and the names of the projects that were decoded, and no other. *)
Theorem group_mapping_keys (ps : list string) :
  exists st, run ps = Some st /\
    forall k, is_Some (orgsOf st !! k) ↔
      k = "Curators" \/ k = "Docs maintainers" \/
      exists p, p ∈ ps /\ projectName p = k /\ exists d, fetched p = Ok d.
Proof.
  destruct (run_model ps) as (st & Hrun & Horgs & _).
  exists st. split; [done|]. intros k. rewrite Horgs. unfold finalOrgs.
  rewrite !lookup_alter_is_Some, modelAfter_orgs_is_Some.
  unfold stored_under. cbn. split.
  - intros [Hk|(p & Hp & Hname & [d Hd])].
    + rewrite !lookup_insert_is_Some, lookup_empty in Hk.
      destruct Hk as [<-|[_ [<-|[_ [? ?]]]]]; [by right; left|by left|done].
    + right. right. exists p. split_and!; [done..|].
      exists d. by apply decodedOf_Some.
  - intros [->|[->|(p & Hp & Hname & [d Hd])]].
    + left. by eexists.
    + left. by eexists.
    + right. exists p. split_and!; [done..|].
      exists d. by apply decodedOf_Some.
Qed.

(** X12: of two decoded identifiers with one name, the one processed
    later gives the group: in [l1 ++ p :: l2], whatever [l1] holds, the
    group under the name of [p] is that of [p] when no decoded project of
    [l2] has this name and the name is no pseudo-group. *)
Theorem later_project_overwrites_group (l1 l2 : list string) (p : string)
    (d : MaintainersDepreciated) :
  fetched p = Ok d ->
  (getProjectOrg p).2 <> "Curators" -> (getProjectOrg p).2 <> "Docs maintainers" ->
  (forall q d', q ∈ l2 -> fetched q = Ok d' ->
     (getProjectOrg q).2 <> (getProjectOrg p).2) ->
  exists st, run (l1 ++ p :: l2) = Some st /\
    orgsOf st !! (getProjectOrg p).2 =
      Some (mkOrg (sort_Strings (map ToLower (projectPeople d)))).
Proof.
  intros Hd Hc Hdocs Hl2.
  destruct (run_model (l1 ++ p :: l2)) as (st & Hrun & Horgs & _).
  exists st. split; [done|].
  change ((getProjectOrg p).2) with (projectName p).
  rewrite Horgs, finalOrgs_lookup_other by done.
  apply modelAfter_group; [by apply decodedOf_Some|done|].
  intros q Hq [d' Hd']. apply (Hl2 q d'); [done|by apply decodedOf_Some].
Qed.

(** X13: a decoded identifier whose name is "Curators" takes the place of
    the pseudo-group: processed last, it leaves under "Curators" its own
    normalized people and its own curators, deduplicated, and nothing of
    the curators gathered before. *)
Theorem project_named_Curators_replaces_group (l1 : list string) (p : string)
    (d : MaintainersDepreciated) :
  (getProjectOrg p).2 = "Curators" -> fetched p = Ok d ->
  exists st, run (l1 ++ [p]) = Some st /\
    orgsOf st !! "Curators" =
      Some (mkOrg (removeDuplicates
                     (sort_Strings (map ToLower (projectPeople d)) ++ curatorsOf d))).
Proof.
  intros Hname Hd.
  destruct (run_model (l1 ++ [p])) as (st & Hrun & Horgs & _).
  exists st. split; [done|].
  rewrite Horgs, finalOrgs_lookup_curators, modelAfter_app. cbn.
  unfold stepModel. apply decodedOf_Some in Hd. rewrite Hd. cbn.
  unfold mergeOrgs, projectName. rewrite Hname.
  rewrite lookup_alter_eq, lookup_alter_ne, lookup_insert_eq by done.
  done.
Qed.

Lemma modelAfter_lookup_stored ps m k p d :
  NoDup (projectName <$> ps) -> not_pseudo k ->
  p ∈ ps -> projectName p = k -> decodedOf p = Some d ->
  Maintainers_Org (modelAfter m ps) !! k = Some (mkOrg (normalize (projectPeople d))).
Proof.
  intros Hnd Hk Hp <- Hd.
  apply list_elem_of_split in Hp as (l1 & l2 & ->).
  rewrite fmap_app, fmap_cons in Hnd.
  apply NoDup_app in Hnd as (_ & _ & [Hl2 _]%NoDup_cons).
  apply modelAfter_group; [done..|].
  intros q Hq _ Hname. apply Hl2. rewrite <- Hname. by apply list_elem_of_fmap_2.
Qed.

Lemma elem_of_concat_fmap {A} (f : A -> list string) (l : list A) x :
  x ∈ concat (f <$> l) ↔ exists a, a ∈ l /\ x ∈ f a.
Proof.
  induction l as [|a l IH]; cbn.
  - split; [intros H; inversion H|intros (a & Ha & _); inversion Ha].
  - rewrite elem_of_app, IH. split.
    + intros [Hx|(b & Hb & Hx)]; [exists a; split; [by left|done]|].
      exists b. split; [by right|done].
    + intros (b & [->|Hb]%elem_of_cons & Hx); [by left|]. right. by exists b.
Qed.

Lemma decoded_Permutation ps ps' : ps ≡ₚ ps' -> decoded ps ≡ₚ decoded ps'.
Proof. intros Hperm. unfold decoded. by rewrite Hperm. Qed.

(** X14: where the names of the listed projects are pairwise distinct and
    none is a pseudo-group name, the final group mapping does not depend
    on the order of the list. *)
Theorem group_mapping_ignores_order (ps ps' : list string) :
  ps ≡ₚ ps' ->
  NoDup ((fun p => (getProjectOrg p).2) <$> ps) ->
  (forall p, p ∈ ps ->
     (getProjectOrg p).2 <> "Curators" /\ (getProjectOrg p).2 <> "Docs maintainers") ->
  exists st st', run ps = Some st /\ run ps' = Some st' /\ orgsOf st = orgsOf st'.
Proof.
  intros Hperm Hnd Hnames.
  assert (Hnd' : NoDup (projectName <$> ps')) by (by rewrite <- Hperm).
  assert (Hnames' : forall p, p ∈ ps' -> not_pseudo (projectName p))
    by (intros p Hp; apply Hnames; by rewrite Hperm).
  destruct (run_model ps) as (st & Hrun & Horgs & _).
  destruct (run_model ps') as (st' & Hrun' & Horgs' & _).
  exists st, st'. split_and!; [done..|].
  rewrite Horgs, Horgs'. apply map_eq. intros k.
  destruct (decide (k = "Curators")) as [->|Hc];
    [|destruct (decide (k = "Docs maintainers")) as [->|Hd]].
  - rewrite !finalOrgs_lookup_curators.
    rewrite (modelAfter_curators ps _ (mkOrg []));
      [|intros q Hq; apply (proj1 (Hnames q Hq))|done].
    rewrite (modelAfter_curators ps' _ (mkOrg []));
      [|intros q Hq; apply (proj1 (Hnames' q Hq))|done].
    cbn. unfold dedupeOrg, extendOrg. cbn. do 2 f_equal.
    apply removeDuplicates_same_set. intros x.
    rewrite !elem_of_concat_fmap.
    by setoid_rewrite (decoded_Permutation ps ps' Hperm).
  - rewrite !finalOrgs_lookup_docs.
    rewrite (modelAfter_docs ps _ (mkOrg []));
      [|intros q Hq; apply (proj2 (Hnames q Hq))|done].
    rewrite (modelAfter_docs ps' _ (mkOrg []));
      [|intros q Hq; apply (proj2 (Hnames' q Hq))|done].
    cbn. unfold dedupeOrg, extendOrg. cbn. do 2 f_equal.
    apply removeDuplicates_same_set. intros x.
    rewrite !elem_of_concat_fmap.
    by setoid_rewrite (decoded_Permutation ps ps' Hperm).
  - assert (Hk : not_pseudo k) by done.
    rewrite !finalOrgs_lookup_other by done.
    destruct (Maintainers_Org (modelAfter (projectMaintainers initial) ps) !! k)
      as [g|] eqn:Hg.
    + assert (Hs : is_Some
                (Maintainers_Org (modelAfter (projectMaintainers initial) ps) !! k))
        by (by rewrite Hg).
      apply modelAfter_orgs_is_Some in Hs as [Hs|(p & Hp & Hname & [d Hd'])].
      { change (Maintainers_Org (projectMaintainers initial)) with (orgsOf initial) in Hs.
        rewrite initial_lookup_other in Hs by done. by destruct Hs. }
      rewrite (modelAfter_lookup_stored ps _ k p d) in Hg by done.
      rewrite (modelAfter_lookup_stored ps' _ k p d); [done..| |done|done].
      by rewrite <- Hperm.
    + symmetry. apply eq_None_not_Some.
      intros [Hs|(p & Hp & Hst)]%modelAfter_orgs_is_Some.
      * change (Maintainers_Org (projectMaintainers initial)) with (orgsOf initial) in Hs.
        rewrite initial_lookup_other in Hs by done. by destruct Hs.
      * assert (Hs : is_Some
                  (Maintainers_Org (modelAfter (projectMaintainers initial) ps) !! k)).
        { apply modelAfter_orgs_is_Some. right. exists p.
          split; [by rewrite Hperm|done]. }
        rewrite Hg in Hs. by destruct Hs.
Qed.

(** X15: the group of a decoded configured project is a rearrangement of
    its lowercased people: a nickname listed twice, or in two cases, stays
    twice, and the group is as long as the declared list. *)
Theorem project_group_keeps_repetitions (p : string) (d : MaintainersDepreciated) :
  p ∈ projects -> fetched p = Ok d ->
  exists st g, main = Some st /\
    orgsOf st !! (getProjectOrg p).2 = Some g /\
    Org_People g ≡ₚ map ToLower (projectPeople d) /\
    length (Org_People g) = length (projectPeople d).
Proof.
  intros Hp Hd. destruct (main_group p d Hp Hd) as (st & Hmain & Hg).
  exists st, (mkOrg (normalize (projectPeople d))).
  split_and!; [done|done|apply sort_Strings_Permutation|].
  cbn. unfold normalize. by rewrite sort_Strings_Permutation, length_map.
Qed.

(** ** The end of [main] *)

Lemma main_returns : exists st, main = Some st.
Proof. destruct (run_model projects) as (st & Hrun & _). by exists st. Qed.

(** X16: with an encoder and a writer that succeed, [main] exits without
    error in every world, whatever fetch or decoding failed: it writes one
    file, "MAINTAINERS" with the bits 0755, made of the header, the two
    prose blocks and the encoding of the combined model in this order, and
    logs the success last. *)
Theorem fetch_failures_are_never_fatal :
  (forall m, exists buf, toml_Encode sink "    " m = Ok buf) ->
  (forall data, ioutil_WriteFile sink "MAINTAINERS" data 493 = None) ->
  exists out st buf,
    main_with_output = Some out /\ main = Some st /\
    toml_Encode sink "    " (projectMaintainers st) = Ok buf /\
    out_exit out = Exit0 /\
    out_writes out = [("MAINTAINERS", ((head +:+ rules) +:+ roles) +:+ buf, 493%N)] /\
    out_logged out =
      logged st ++ [(InfoLevel, "Successfully wrote new combined MAINTAINERS file.")].
Proof.
  intros Henc Hwrite. destruct main_returns as (st & Hmain).
  destruct (Henc (projectMaintainers st)) as (buf & Hbuf).
  exists (finish st), st, buf. unfold main_with_output. rewrite Hmain. cbn.
  unfold finish. rewrite Hbuf, Hwrite. done.
Qed.


Lemma elem_of_decoded ps d :
  d ∈ decoded ps ↔ exists p, p ∈ ps /\ fetched p = Ok d.
Proof.
  unfold decoded. rewrite list_elem_of_omap.
  by setoid_rewrite decodedOf_Some.
Qed.

(** X18: where no listed identifier is named as a pseudo-group, the final
    "Curators" group holds exactly the strings some decoded project lists
    as curators, and "Docs maintainers" exactly those some decoded project
    lists as docs maintainers. *)
Theorem pseudo_groups_hold_the_declared (ps : list string) :
  (forall p, p ∈ ps ->
     (getProjectOrg p).2 <> "Curators" /\ (getProjectOrg p).2 <> "Docs maintainers") ->
  exists st c dm, run ps = Some st /\
    orgsOf st !! "Curators" = Some c /\
    orgsOf st !! "Docs maintainers" = Some dm /\
    (forall x, x ∈ Org_People c ↔
       exists p d, p ∈ ps /\ fetched p = Ok d /\ x ∈ curatorsOf d) /\
    (forall x, x ∈ Org_People dm ↔
       exists p d, p ∈ ps /\ fetched p = Ok d /\ x ∈ docsOf d).
Proof.
  intros Hnames. destruct (run_model ps) as (st & Hrun & Horgs & _).
  exists st, (mkOrg (removeDuplicates (concat (curatorsOf <$> decoded ps)))),
    (mkOrg (removeDuplicates (concat (docsOf <$> decoded ps)))).
  split_and!; [done| | | |].
  - rewrite Horgs, finalOrgs_lookup_curators.
    rewrite (modelAfter_curators ps _ (mkOrg []));
      [done|intros q Hq; apply (proj1 (Hnames q Hq))|done].
  - rewrite Horgs, finalOrgs_lookup_docs.
    rewrite (modelAfter_docs ps _ (mkOrg []));
      [done|intros q Hq; apply (proj2 (Hnames q Hq))|done].
  - intros x. cbn. rewrite removeDuplicates_elem_of, elem_of_concat_fmap. split.
    + intros (d & (p & Hp & Hd)%elem_of_decoded & Hx). by exists p, d.
    + intros (p & d & Hp & Hd & Hx). exists d. split; [|done].
      apply elem_of_decoded. by exists p.
  - intros x. cbn. rewrite removeDuplicates_elem_of, elem_of_concat_fmap. split.
    + intros (d & (p & Hp & Hd)%elem_of_decoded & Hx). by exists p, d.
    + intros (p & d & Hp & Hd & Hx). exists d. split; [|done].
      apply elem_of_decoded. by exists p.
Qed.


End Aggregator.

(** ** The claims on the example world *)

Local Ltac by_evaluation := apply (bool_decide_unpack _); vm_compute; exact I.

(** C1 (the code departs from the claim): with curators "Tom" declared by
    "boot2docker" and "tom", "Sam" by "cli", the final "Curators" group
    holds "Sam", "Tom" and "tom": "Tom" is kept in the case it was declared
    in, although its lowercase form is "tom" and the global person mapping
    has the key "tom" and no key "Tom". *)
Theorem curators_keep_declared_case (unicode_ToLower_Map : string -> string) :
  exists st, main unicode_ToLower_Map demo = Some st /\
    orgsOf st !! "Curators" = Some (mkOrg ["Sam"; "Tom"; "tom"]) /\
    ToLower unicode_ToLower_Map "Tom" = "tom" /\
    peopleOf st !! "Tom" = None /\
    peopleOf st !! "tom" = Some tom3.
Proof.
  destruct (run_model unicode_ToLower_Map demo projects)
    as (st & Hrun & Horgs & Hpeople).
  exists st. split; [exact Hrun|]. rewrite Horgs, Hpeople.
  split_and!; by vm_compute.
Qed.

(** C3 as stated fails, in two ways.  In [demo], "boot2docker" and then
    "cli" are decoded and declare "Tom" and "tom", yet the final entry
    under "tom" is not the record of "cli": "compose", processed later,
    declares "TOM".  In [demo_twice], "cli" is the last project to declare
    the nickname and declares it twice, as "tom" and as "TOM": the final
    entry is not the record of its entry "tom". *)
Lemma pairwise_last_writer_counterexample :
  (exists st, main no_tables demo = Some st /\
     projects = [] ++ "boot2docker" :: [] ++ "cli" :: drop 2 projects /\
     fetched demo "boot2docker" = Ok boot2docker_decl /\
     fetched demo "cli" = Ok cli_decl /\
     ("Tom", tom1) ∈ Depreciated_People boot2docker_decl /\
     ("tom", tom2) ∈ Depreciated_People cli_decl /\
     ToLower no_tables "Tom" = ToLower no_tables "tom" /\
     peopleOf st !! ToLower no_tables "Tom" <> Some tom2) /\
  (exists st, main no_tables demo_twice = Some st /\
     projects = [] ++ "boot2docker" :: [] ++ "cli" :: drop 2 projects /\
     fetched demo_twice "boot2docker" = Ok boot2docker_decl /\
     fetched demo_twice "cli" = Ok twice_decl /\
     ("Tom", tom1) ∈ Depreciated_People boot2docker_decl /\
     ("tom", tom2) ∈ Depreciated_People twice_decl /\
     ToLower no_tables "Tom" = ToLower no_tables "tom" /\
     undeclared_in no_tables demo_twice "tom" (drop 2 projects) /\
     peopleOf st !! ToLower no_tables "Tom" <> Some tom2).
Proof.
  split.
  - destruct (run_model no_tables demo projects) as (st & Hrun & _ & Hpeople).
    exists st. split; [exact Hrun|]. rewrite Hpeople.
    split_and!.
    + reflexivity.
    + vm_compute. reflexivity.
    + vm_compute. reflexivity.
    + by left.
    + by left.
    + reflexivity.
    + vm_compute. intros [=].
  - destruct (run_model no_tables demo_twice projects)
      as (st & Hrun & _ & Hpeople).
    exists st. split; [exact Hrun|]. rewrite Hpeople.
    split_and!.
    + reflexivity.
    + vm_compute. reflexivity.
    + vm_compute. reflexivity.
    + by left.
    + by left.
    + reflexivity.
    + intros q d n r Hq Hf Hin. vm_compute in Hq.
      repeat (apply elem_of_cons in Hq as [->|Hq];
              [vm_compute in Hf; discriminate Hf|]).
      inversion Hq.
    + vm_compute. intros [=].
Qed.

(** *** Witnesses *)

Lemma primary_group_takes_precedence_witness :
  Organization_Maintainers (Depreciated_Organization boot2docker_decl)
    = Some (mkOrg ["Zed"; "amy"]) /\
  Organization_CoreMaintainers (Depreciated_Organization boot2docker_decl)
    = Some (mkOrg ["bob"]) /\
  projectPeople boot2docker_decl = ["Zed"; "amy"] /\
  exists st, main no_tables demo = Some st /\
    orgsOf st !! "boot2docker" = Some (mkOrg ["amy"; "zed"]).
Proof.
  destruct (primary_group_takes_precedence no_tables demo boot2docker_decl)
    as (H1 & _ & H3).
  split_and!; [reflexivity|reflexivity|exact (H1 _ eq_refl)|].
  apply (H3 "boot2docker" (mkOrg ["Zed"; "amy"])); [by_evaluation|by vm_compute|done].
Defined.

Lemma last_declaring_project_wins_witness :
  exists st, main no_tables demo = Some st /\ peopleOf st !! "tom" = Some tom3.
Proof.
  apply (last_declaring_project_wins no_tables demo
           ["boot2docker"] "cli" [] "compose" (drop 3 projects)
           cli_decl compose_decl "tom" tom2 "TOM" tom3).
  - by vm_compute.
  - by vm_compute.
  - by left.
  - by left.
  - reflexivity.
  - intros n r Hin%list_elem_of_singleton _. congruence.
  - intros q d n r Hq Hf Hin. vm_compute in Hq.
    repeat (apply elem_of_cons in Hq as [->|Hq];
            [vm_compute in Hf; try discriminate Hf;
             injection Hf as <-; inversion Hin|]).
    inversion Hq.
Defined.

Lemma getProjectOrg_splits_at_first_slash_witness :
  (exists org name, "bar/baz" = org +:+ "/" +:+ name /\
     contains_byte "/" org = false /\ getProjectOrg "bar/baz" = (org, name)) /\
  getProjectOrg "foo" = ("docker", "foo").
Proof.
  split.
  - apply (proj1 (getProjectOrg_splits_at_first_slash "bar/baz")). reflexivity.
  - apply (proj2 (getProjectOrg_splits_at_first_slash "foo")). reflexivity.
Defined.

Lemma project_group_normalized_under_bare_name_witness :
  "containerd/containerd" ∈ projects /\
  fetched demo "containerd/containerd" = Ok containerd_decl /\
  exists st, main no_tables demo = Some st /\
    orgsOf st !! "containerd" = Some (mkOrg ["al"; "bob"]).
Proof.
  assert (Hin : "containerd/containerd" ∈ projects) by by_evaluation.
  assert (Hf : fetched demo "containerd/containerd" = Ok containerd_decl)
    by (by vm_compute).
  split_and!; [exact Hin|exact Hf|].
  destruct (project_group_normalized_under_bare_name no_tables demo _ _ Hin Hf)
    as (st & Hmain & Hg & _).
  exists st. split; [exact Hmain|exact Hg].
Defined.

Lemma failed_project_contributes_nothing_witness :
  "moby/moby" ∈ projects /\
  fetched demo "moby/moby" = Err "moby/moby: dial tcp: no route to host" /\
  exists st, main no_tables demo = Some st /\ orgsOf st !! "moby" = None.
Proof.
  assert (Hin : "moby/moby" ∈ projects) by by_evaluation.
  assert (Hf : fetched demo "moby/moby"
               = Err "moby/moby: dial tcp: no route to host") by (by vm_compute).
  split_and!; [exact Hin|exact Hf|].
  destruct (failed_project_contributes_nothing no_tables demo _ _ Hf)
    as (_ & _ & _ & Hkey).
  exact (Hkey Hin).
Defined.

Lemma pseudo_groups_deduped_after_loop_witness :
  removeDuplicates ["Tom"; "Sam"; "Tom"] = removeDuplicates ["Sam"; "Tom"].
Proof.
  apply (proj2 (pseudo_groups_deduped_after_loop no_tables demo)).
  intros x. rewrite !elem_of_cons, !elem_of_nil. tauto.
Defined.

Lemma pseudo_groups_always_present_witness :
  exists st, run no_tables demo ["moby/moby"; "swarm"] = Some st /\
    orgsOf st !! "Curators" = Some (mkOrg []) /\
    orgsOf st !! "Docs maintainers" = Some (mkOrg []).
Proof.
  destruct (pseudo_groups_always_present no_tables demo) as (_ & _ & _ & H & _).
  apply H. intros p Hp.
  apply elem_of_cons in Hp as [->|Hp]; [by eexists|].
  apply list_elem_of_singleton in Hp as ->. by eexists.
Defined.

Lemma project_without_groups_gets_empty_group_witness :
  "cli" ∈ projects /\ fetched demo "cli" = Ok cli_decl /\
  exists st, main no_tables demo = Some st /\ orgsOf st !! "cli" = Some (mkOrg []).
Proof.
  assert (Hin : "cli" ∈ projects) by by_evaluation.
  assert (Hf : fetched demo "cli" = Ok cli_decl) by (by vm_compute).
  split_and!; [exact Hin|exact Hf|].
  apply (project_without_groups_gets_empty_group no_tables demo _ _ Hin Hf);
    reflexivity.
Defined.

(** *** Witnesses of the further properties *)

Lemma removeDuplicates_length_witness :
  NoDup ["bob"; "amy"] /\ removeDuplicates ["bob"; "amy"] ≡ₚ ["bob"; "amy"].
Proof.
  assert (Hnd : NoDup ["bob"; "amy"]) by by_evaluation.
  split; [exact Hnd|].
  exact (proj2 (proj2 (removeDuplicates_length ["bob"; "amy"])) Hnd).
Defined.

Lemma getProjectOrg_empty_parts_witness :
  contains_byte "/" "moby" = false /\ getProjectOrg "moby/" = ("moby", "").
Proof.
  split; [reflexivity|].
  exact (proj2 getProjectOrg_empty_parts "moby" eq_refl).
Defined.

Lemma fetched_url_determines_project_witness :
  getProjectOrg "cli" = getProjectOrg "docker/cli".
Proof. apply fetched_url_determines_project. reflexivity. Defined.


Lemma person_mapping_holds_the_declared_witness :
  exists st, main no_tables demo = Some st /\ is_Some (peopleOf st !! "zed").
Proof.
  destruct (person_mapping_holds_the_declared no_tables demo projects)
    as (st & Hrun & _ & Hdeclared).
  exists st. split; [exact Hrun|].
  apply (Hdeclared "boot2docker" boot2docker_decl "Zed" zed).
  - by_evaluation.
  - vm_compute. reflexivity.
  - right. left.
Defined.

Lemma later_project_overwrites_group_witness :
  exists st,
    run no_tables demo_clash ["boot2docker"; "moby/boot2docker"; "cli"] = Some st /\
    orgsOf st !! "boot2docker" = Some (mkOrg ["al"; "bob"]).
Proof.
  apply (later_project_overwrites_group no_tables demo_clash
           ["boot2docker"] ["cli"] "moby/boot2docker" containerd_decl).
  - vm_compute. reflexivity.
  - discriminate.
  - discriminate.
  - intros q d' Hq%list_elem_of_singleton _. subst q. discriminate.
Defined.

Lemma project_named_Curators_replaces_group_witness :
  exists st,
    run no_tables demo_clash ["boot2docker"; "Curators"] = Some st /\
    orgsOf st !! "Curators" = Some (mkOrg ["Tom"; "amy"; "zed"]).
Proof.
  apply (project_named_Curators_replaces_group no_tables demo_clash
           ["boot2docker"] "Curators" boot2docker_decl).
  - reflexivity.
  - vm_compute. reflexivity.
Defined.

Lemma group_mapping_ignores_order_witness :
  exists st st',
    run no_tables demo ["cli"; "boot2docker"] = Some st /\
    run no_tables demo ["boot2docker"; "cli"] = Some st' /\
    orgsOf st = orgsOf st'.
Proof.
  apply group_mapping_ignores_order.
  - apply perm_swap.
  - by_evaluation.
  - intros p [->|Hp%list_elem_of_singleton]%elem_of_cons;
      [|subst p]; split; discriminate.
Defined.

Lemma project_group_keeps_repetitions_witness :
  exists st g,
    main no_tables demo_clash = Some st /\
    orgsOf st !! "cli" = Some g /\ length (Org_People g) = 3.
Proof.
  destruct (project_group_keeps_repetitions no_tables demo_clash
              "cli" repeated_decl) as (st & g & Hmain & Hg & _ & Hlen).
  - by_evaluation.
  - vm_compute. reflexivity.
  - exists st, g. split_and!; [exact Hmain|exact Hg|exact Hlen].
Defined.

Lemma fetch_failures_are_never_fatal_witness :
  exists out,
    main_with_output no_tables garbled "rules" "roles" good_sink = Some out /\
    out_exit out = Exit0.
Proof.
  destruct (fetch_failures_are_never_fatal no_tables garbled
              "rules" "roles" good_sink)
    as (out & st & buf & Hout & _ & _ & Hexit & _).
  - intros m. by exists "[Org]".
  - reflexivity.
  - exists out. split; [exact Hout|exact Hexit].
Defined.


Lemma pseudo_groups_hold_the_declared_witness :
  exists st c, run no_tables demo ["boot2docker"; "cli"] = Some st /\
    orgsOf st !! "Curators" = Some c /\ "Sam" ∈ Org_People c.
Proof.
  destruct (pseudo_groups_hold_the_declared no_tables demo ["boot2docker"; "cli"])
    as (st & c & dm & Hrun & Hc & _ & Hin & _).
  - intros p [->|Hp%list_elem_of_singleton]%elem_of_cons;
      [|subst p]; split; discriminate.
  - exists st, c. split_and!; [exact Hrun|exact Hc|].
    apply Hin. exists "cli", cli_decl. split_and!.
    + right. left.
    + vm_compute. reflexivity.
    + right. left.
Defined.

